(** * Voice-conversation coordinator of the consultation chat client

    A shallow embedding of [script.js].

    - The text cleaning and the voice selection of [speakText] are pure
      functions on JavaScript strings.
    - The coordinator is state-passing code over the globals of the script
      ([isRecording], [isSpeaking], [autoSpeak], [continuousMode],
      [currentUtterance], [recognition], [sessionId], [patientData]), the
      pending [setTimeout] callbacks, the requests that are awaited, and a
      log of the calls made to the listener, the speaker, the document and
      the network.  A statement returns or throws; [try], [catch] and
      [finally] are as in the script.
    - One task of the event loop is one [Event]: a user action, a callback
      of the listener or of the speaker, a timer that fires, a request
      that settles.  The browser decides their order; the theorems about
      runs hold for every order.

    - The summary, its PDF and the session id box are statements over the
      page: the globals, [currentPdfUrl] and the properties of the
      document those functions read or write (module [Pdf]).

    The history list and the clipboard are left out. *)

From Stdlib Require Import List ZArith Bool String Ascii Lia QArith.
Import ListNotations.
Local Close Scope Q_scope.

(* ================================================================== *)
(** * JavaScript strings *)
(* ================================================================== *)

(** A JavaScript string is a sequence of UTF-16 code units; the regular
    expressions of [speakText] carry no [u] flag, so they match code
    units, not code points. *)
Definition JsString := list Z.

(** The code units of an ASCII literal. *)
Definition js (s : string) : JsString :=
  map (fun a => Z.of_N (N_of_ascii a)) (list_ascii_of_string s).

Fixpoint units_eqb (a b : JsString) : bool :=
  match a, b with
  | [], [] => true
  | x :: a', y :: b' => Z.eqb x y && units_eqb a' b'
  | _, _ => false
  end.

(** [s.startsWith(p)] *)
Fixpoint startsWith (p s : JsString) : bool :=
  match p, s with
  | [], _ => true
  | x :: p', y :: s' => Z.eqb x y && startsWith p' s'
  | _ :: _, [] => false
  end.

(** [s.includes(p)]: case-sensitive substring test. *)
Fixpoint includes (s p : JsString) : bool :=
  startsWith p s
  || match s with
     | [] => false
     | _ :: t => includes t p
     end.

(** White space and line terminators, the code units [trim] strips. *)
Definition is_js_space (u : Z) : bool :=
  existsb (Z.eqb u)
    [0x0009; 0x000A; 0x000B; 0x000C; 0x000D; 0x0020; 0x00A0; 0x1680;
     0x2028; 0x2029; 0x202F; 0x205F; 0x3000; 0xFEFF]%Z
  || (Z.leb 0x2000 u && Z.leb u 0x200A).

Fixpoint trimStart (s : JsString) : JsString :=
  match s with
  | [] => []
  | u :: t => if is_js_space u then trimStart t else s
  end.

(** [s.trim()] *)
Definition trim (s : JsString) : JsString :=
  rev (trimStart (rev (trimStart s))).

(* ================================================================== *)
(** * [String.prototype.replace] with a global regular expression *)
(* ================================================================== *)

Module Regex.

(** A matcher answers, for the text that starts at the current index, the
    length of the match that begins exactly there, if there is one. *)
Definition Matcher := JsString -> option nat.

(** The scan of [text.replace(/re/g, rep)]: from the left, a match at the
    current index is replaced by [rep] and the scan resumes after it; where
    nothing matches the code unit is copied.  [skip] counts the units of
    the current match that are still to be passed over. *)
Fixpoint replace_from (m : Matcher) (rep : JsString) (skip : nat)
  (s : JsString) : JsString :=
  match s with
  | [] => []
  | c :: t =>
      match skip with
      | S k => replace_from m rep k t
      | O =>
          match m s with
          | Some (S k) => rep ++ replace_from m rep k t
          | _ => c :: replace_from m rep 0 t
          end
      end
  end.

Definition replace (m : Matcher) (rep : JsString) (s : JsString) : JsString :=
  replace_from m rep 0 s.

(** [/a|b|.../]: the first alternative, in the order written, that the
    text starts with. *)
Fixpoint alternation (alts : list JsString) : Matcher :=
  fun s =>
    match alts with
    | [] => None
    | a :: rest =>
        if startsWith a s then Some (List.length a) else alternation rest s
    end.

(** The length of the longest run of [u] the text starts with. *)
Fixpoint run_length (u : Z) (s : JsString) : nat :=
  match s with
  | c :: t => if Z.eqb c u then S (run_length u t) else O
  | [] => O
  end.

(** [/u{n,}/]: greedy, at least [n] repetitions. *)
Definition at_least (n : nat) (u : Z) : Matcher :=
  fun s => let r := run_length u s in if Nat.leb n r then Some r else None.

(** [/lit/] *)
Definition literal (lit : JsString) : Matcher :=
  fun s => if startsWith lit s then Some (List.length lit) else None.

End Regex.

(* ================================================================== *)
(** * The text cleaning of [speakText] *)
(* ================================================================== *)

Definition NL : Z := 10.        (* \n *)
Definition STAR : Z := 42.      (* asterisk *)
Definition HBAR : Z := 0x2501.  (* U+2501, heavy horizontal bar *)
Definition VS16 : Z := 0xFE0F.  (* variation selector 16 *)

(** The alternatives of the first regular expression, in source order. *)
Definition stethoscope : JsString := [0xD83E; 0xDE7A]%Z.       (* U+1FA7A *)
Definition light_bulb : JsString := [0xD83D; 0xDCA1]%Z.        (* U+1F4A1 *)
Definition pill : JsString := [0xD83D; 0xDC8A]%Z.              (* U+1F48A *)
Definition green_salad : JsString := [0xD83E; 0xDD57]%Z.       (* U+1F957 *)
Definition warning_vs : JsString := [0x26A0; 0xFE0F]%Z.        (* U+26A0 U+FE0F *)
Definition warning : JsString := [0x26A0]%Z.                   (* U+26A0 *)
Definition calendar : JsString := [0xD83D; 0xDCC5]%Z.          (* U+1F4C5 *)
Definition direct_hit : JsString := [0xD83C; 0xDFAF]%Z.        (* U+1F3AF *)
Definition bar_chart : JsString := [0xD83D; 0xDCCA]%Z.         (* U+1F4CA *)
Definition shield_vs : JsString := [0xD83D; 0xDEE1; 0xFE0F]%Z. (* U+1F6E1 U+FE0F *)
Definition runner : JsString := [0xD83C; 0xDFC3]%Z.            (* U+1F3C3 *)
Definition bust : JsString := [0xD83D; 0xDC64]%Z.              (* U+1F464 *)

Definition emoji : list JsString :=
  [stethoscope; light_bulb; pill; green_salad; warning_vs; warning;
   calendar; direct_hit; bar_chart; shield_vs; runner; bust].

Definition strip_emoji : JsString -> JsString :=
  Regex.replace (Regex.alternation emoji) [].
Definition strip_bars : JsString -> JsString :=
  Regex.replace (Regex.at_least 1 HBAR) [].
Definition strip_bold : JsString -> JsString :=
  Regex.replace (Regex.literal [STAR; STAR]) [].
Definition collapse_newlines : JsString -> JsString :=
  Regex.replace (Regex.at_least 3 NL) [NL; NL].

(** [cleanText] of [speakText]: the four [replace] calls, chained. *)
Definition cleanText (text : JsString) : JsString :=
  collapse_newlines (strip_bold (strip_bars (strip_emoji text))).

(* ================================================================== *)
(** * Voice selection of [speakText] *)
(* ================================================================== *)

Record SpeechSynthesisVoice := mkVoice { name : JsString; lang : JsString }.

(** The predicate of the first [voices.find]. *)
Definition preferred (voice : SpeechSynthesisVoice) : bool :=
  (includes (lang voice) (js "en-US") || includes (lang voice) (js "en-GB"))
  && (includes (name voice) (js "Female")
      || includes (name voice) (js "Samantha")
      || includes (name voice) (js "Victoria")
      || includes (name voice) (js "Google")
      || includes (name voice) (js "Microsoft")).

(** The predicate of the second [voices.find]. *)
Definition english (voice : SpeechSynthesisVoice) : bool :=
  includes (lang voice) (js "en").

(** [a || b] on values that are either an object or [undefined]. *)
Definition or_else {A} (a b : option A) : option A :=
  match a with
  | Some x => Some x
  | None => b
  end.

(** [voices.find(...) || voices.find(...) || voices[0]] *)
Definition preferredVoice (voices : list SpeechSynthesisVoice)
  : option SpeechSynthesisVoice :=
  or_else (find preferred voices)
          (or_else (find english voices) (hd_error voices)).

(* ================================================================== *)
(** * The coordinator's state *)
(* ================================================================== *)

(** What the runtime offers: ['SpeechRecognition' in window] (or its
    webkit name), ['speechSynthesis' in window], and the list that
    [speechSynthesis.getVoices()] returns. *)
Record Env := mkEnv {
  speechRecognitionSupported : bool;
  speechSynthesisSupported : bool;
  voices : list SpeechSynthesisVoice
}.

(** [sessionId]: [null] at load, then whatever [data.session_id] was. *)
Inductive SessionId := SidNull | SidUndefined | SidStr (id : JsString).

(** [patientData]: an object, of which only [name] is read, or a value
    ([undefined], [null]) whose property access throws. *)
Inductive PatientData := PdNullish | PdObject (patient_name : option JsString).

Record Utterance := mkUtterance {
  text : JsString;
  rate : Q;
  pitch : Q;
  volume : Q;
  utterance_lang : JsString;
  voice : option SpeechSynthesisVoice
}.

Inductive Role := user | doctor.

(** The four coordination flags, as they stand when an effect is issued. *)
Record Flags := mkFlags {
  recording : bool;
  speaking : bool;
  auto : bool;
  continuous : bool
}.

(** Calls that leave the coordinator: to the listener, to the speaker, to
    the document, to the console and to the network. *)
Inductive Effect :=
| RecognitionStart                       (* recognition.start() *)
| RecognitionStop                        (* recognition.stop() *)
| SynthCancel                            (* speechSynthesis.cancel() *)
| SynthSpeak (u : Utterance)             (* speechSynthesis.speak(u) *)
| RecordingIndicators (on : bool)        (* voiceBtn / voiceInputBtn classes *)
| VoiceStatus (message type : JsString)  (* updateVoiceStatus *)
| VoiceStatusHidden                      (* hideVoiceStatus *)
| Notification (message type : JsString) (* showNotification *)
| NotificationHidden
| AutoSpeakIndicator (on : bool)
| ContinuousButton (on : bool)
| SessionInfo (info : JsString) (sid : SessionId)
| Message (type : Role) (content : option JsString)   (* addMessage *)
| ChatCleared                            (* chatContainer.innerHTML = '' *)
| HistoryClosed                          (* closeHistory *)
| SpeakerIcon (on : bool)
| Loading (show : bool)
| Fetch (path : JsString) (sid : SessionId) (message : option JsString)
                                         (* fetch, with the fields of its body *)
| ConsoleError (message : JsString)
| ConsoleLog (message : JsString).

Record LogEntry := mkEntry { at_flags : Flags; what : Effect }.

(** The callbacks handed to [setTimeout]. *)
Inductive TimerAction :=
| SendTranscript          (* recognition.onresult, continuous mode *)
| HideStatus              (* recognition.onresult, manual mode *)
| RestartAfterListenError (* recognition.onerror *)
| RestartAfterListenEnd   (* recognition.onend *)
| RestartAfterSpeechEnd   (* currentUtterance.onend *)
| RestartAfterSpeechError (* currentUtterance.onerror *)
| SpeakCurrent            (* speakText *)
| HideNotification        (* showNotification *)
| IconDone.               (* speaker icon *)

Record Timer := mkTimer { delay : nat; action : TimerAction }.

Record State := mkState {
  sessionId : SessionId;
  patientData : PatientData;
  recognition : bool;                    (* false: null *)
  isRecording : bool;
  autoSpeak : bool;
  currentUtterance : option Utterance;   (* None: null *)
  isSpeaking : bool;
  continuousMode : bool;
  messageInput : JsString;               (* value of #messageInput *)
  timers : list Timer;                   (* pending setTimeout callbacks *)
  awaitingChat : nat;                    (* sendMessage calls suspended at await *)
  awaitingSession : nat;                 (* window.onload suspended at await *)
  awaitingRestart : nat;                 (* restartSession suspended at await *)
  awaitingLoad : nat;                    (* loadSession suspended at await *)
  log : list LogEntry
}.

Definition initial : State :=
  {| sessionId := SidNull; patientData := PdObject None; recognition := false;
     isRecording := false; autoSpeak := false; currentUtterance := None;
     isSpeaking := false; continuousMode := false; messageInput := [];
     timers := []; awaitingChat := 0; awaitingSession := 0;
     awaitingRestart := 0; awaitingLoad := 0; log := [] |}.

Definition flags_of (s : State) : Flags :=
  {| recording := isRecording s; speaking := isSpeaking s;
     auto := autoSpeak s; continuous := continuousMode s |}.

Definition set_sessionId v s :=
  mkState v (patientData s) (recognition s) (isRecording s) (autoSpeak s)
    (currentUtterance s) (isSpeaking s) (continuousMode s) (messageInput s)
    (timers s) (awaitingChat s) (awaitingSession s) (awaitingRestart s)
    (awaitingLoad s) (log s).
Definition set_patientData v s :=
  mkState (sessionId s) v (recognition s) (isRecording s) (autoSpeak s)
    (currentUtterance s) (isSpeaking s) (continuousMode s) (messageInput s)
    (timers s) (awaitingChat s) (awaitingSession s) (awaitingRestart s)
    (awaitingLoad s) (log s).
Definition set_recognition v s :=
  mkState (sessionId s) (patientData s) v (isRecording s) (autoSpeak s)
    (currentUtterance s) (isSpeaking s) (continuousMode s) (messageInput s)
    (timers s) (awaitingChat s) (awaitingSession s) (awaitingRestart s)
    (awaitingLoad s) (log s).
Definition set_isRecording v s :=
  mkState (sessionId s) (patientData s) (recognition s) v (autoSpeak s)
    (currentUtterance s) (isSpeaking s) (continuousMode s) (messageInput s)
    (timers s) (awaitingChat s) (awaitingSession s) (awaitingRestart s)
    (awaitingLoad s) (log s).
Definition set_autoSpeak v s :=
  mkState (sessionId s) (patientData s) (recognition s) (isRecording s) v
    (currentUtterance s) (isSpeaking s) (continuousMode s) (messageInput s)
    (timers s) (awaitingChat s) (awaitingSession s) (awaitingRestart s)
    (awaitingLoad s) (log s).
Definition set_currentUtterance v s :=
  mkState (sessionId s) (patientData s) (recognition s) (isRecording s)
    (autoSpeak s) v (isSpeaking s) (continuousMode s) (messageInput s)
    (timers s) (awaitingChat s) (awaitingSession s) (awaitingRestart s)
    (awaitingLoad s) (log s).
Definition set_isSpeaking v s :=
  mkState (sessionId s) (patientData s) (recognition s) (isRecording s)
    (autoSpeak s) (currentUtterance s) v (continuousMode s) (messageInput s)
    (timers s) (awaitingChat s) (awaitingSession s) (awaitingRestart s)
    (awaitingLoad s) (log s).
Definition set_continuousMode v s :=
  mkState (sessionId s) (patientData s) (recognition s) (isRecording s)
    (autoSpeak s) (currentUtterance s) (isSpeaking s) v (messageInput s)
    (timers s) (awaitingChat s) (awaitingSession s) (awaitingRestart s)
    (awaitingLoad s) (log s).
Definition set_messageInput v s :=
  mkState (sessionId s) (patientData s) (recognition s) (isRecording s)
    (autoSpeak s) (currentUtterance s) (isSpeaking s) (continuousMode s) v
    (timers s) (awaitingChat s) (awaitingSession s) (awaitingRestart s)
    (awaitingLoad s) (log s).
Definition set_timers v s :=
  mkState (sessionId s) (patientData s) (recognition s) (isRecording s)
    (autoSpeak s) (currentUtterance s) (isSpeaking s) (continuousMode s)
    (messageInput s) v (awaitingChat s) (awaitingSession s)
    (awaitingRestart s) (awaitingLoad s) (log s).
Definition set_awaitingChat v s :=
  mkState (sessionId s) (patientData s) (recognition s) (isRecording s)
    (autoSpeak s) (currentUtterance s) (isSpeaking s) (continuousMode s)
    (messageInput s) (timers s) v (awaitingSession s) (awaitingRestart s)
    (awaitingLoad s) (log s).
Definition set_awaitingSession v s :=
  mkState (sessionId s) (patientData s) (recognition s) (isRecording s)
    (autoSpeak s) (currentUtterance s) (isSpeaking s) (continuousMode s)
    (messageInput s) (timers s) (awaitingChat s) v (awaitingRestart s)
    (awaitingLoad s) (log s).
Definition set_awaitingRestart v s :=
  mkState (sessionId s) (patientData s) (recognition s) (isRecording s)
    (autoSpeak s) (currentUtterance s) (isSpeaking s) (continuousMode s)
    (messageInput s) (timers s) (awaitingChat s) (awaitingSession s) v
    (awaitingLoad s) (log s).
Definition set_awaitingLoad v s :=
  mkState (sessionId s) (patientData s) (recognition s) (isRecording s)
    (autoSpeak s) (currentUtterance s) (isSpeaking s) (continuousMode s)
    (messageInput s) (timers s) (awaitingChat s) (awaitingSession s)
    (awaitingRestart s) v (log s).
Definition set_log v s :=
  mkState (sessionId s) (patientData s) (recognition s) (isRecording s)
    (autoSpeak s) (currentUtterance s) (isSpeaking s) (continuousMode s)
    (messageInput s) (timers s) (awaitingChat s) (awaitingSession s)
    (awaitingRestart s) (awaitingLoad s) v.

(* ================================================================== *)
(** * Statements that read and write the globals, and may throw *)
(* ================================================================== *)

(** How a statement completes.  A thrown exception keeps the writes made
    before it. *)
Inductive Completion (A : Type) := Normal (a : A) | Thrown.
Arguments Normal {A} a.
Arguments Thrown {A}.

Definition M (A : Type) := State -> Completion A * State.

Definition ret {A} (a : A) : M A := fun s => (Normal a, s).

Definition bind {A B} (m : M A) (k : A -> M B) : M B :=
  fun s =>
    match m s with
    | (Normal a, s') => k a s'
    | (Thrown, s') => (Thrown, s')
    end.

Definition throw {A} : M A := fun s => (Thrown, s).

Declare Scope js_scope.
Delimit Scope js_scope with js.
Notation "x <- m ;; k" := (bind m (fun x => k))
  (at level 61, m at next level, right associativity) : js_scope.
Notation "m ;; k" := (bind m (fun _ => k))
  (at level 61, right associativity) : js_scope.
Local Open Scope js_scope.

Definition read {A} (f : State -> A) : M A := fun s => (Normal (f s), s).
Definition write (f : State -> State) : M unit := fun s => (Normal tt, f s).
Definition skip : M unit := ret tt.

(** [try { body } catch { handler }] *)
Definition try_catch (body handler : M unit) : M unit :=
  fun s =>
    match body s with
    | (Normal a, s') => (Normal a, s')
    | (Thrown, s') => handler s'
    end.

(** [try { body } finally { fin }] *)
Definition try_finally (body fin : M unit) : M unit :=
  fun s =>
    match body s with
    | (Normal _, s') => fin s'
    | (Thrown, s') =>
        match fin s' with
        | (Normal _, s'') => (Thrown, s'')
        | thrown => thrown
        end
    end.

Definition emit (e : Effect) : M unit :=
  write (fun s => set_log (log s ++ [mkEntry (flags_of s) e]) s).

Definition setTimeout (a : TimerAction) (ms : nat) : M unit :=
  write (fun s => set_timers (timers s ++ [mkTimer ms a]) s).

(** The effects a statement added to the log. *)
Definition emitted (before after : State) : list Effect :=
  map what (skipn (List.length (log before)) (log after)).

(** The timers a statement added. *)
Definition scheduled (before after : State) : list Timer :=
  skipn (List.length (timers before)) (timers after).

(* ================================================================== *)
(** * The functions of [script.js] *)
(* ================================================================== *)

(** Non-ASCII prefixes of the status texts. *)
Definition microphone : JsString := [0xD83C; 0xDFA4]%Z.     (* U+1F3A4 *)
Definition check_mark : JsString := [0x2713]%Z.             (* U+2713 *)
Definition cross_mark : JsString := [0x274C]%Z.             (* U+274C *)
Definition muted_speaker : JsString := [0xD83D; 0xDD07]%Z.  (* U+1F507 *)
Definition loud_speaker : JsString := [0xD83D; 0xDD0A]%Z.   (* U+1F50A *)

Definition fallback_reply : JsString :=
  cross_mark ++ js " Sorry, there was an error. Please try again.".

(** What the awaited [fetch(...)] and [response.json()] of a request come
    to: [fetch] rejects, or it resolves to a response, whose [ok] tells
    whether the status is in the 200s and whose [json()] resolves to the
    parsed body or rejects ([None]). *)
Inductive Reply (A : Type) := FetchRejected | Response (ok : bool) (body : option A).
Arguments FetchRejected {A}.
Arguments Response {A} ok body.

(** The fields read from the body of [POST /chat]; a field that is absent
    reads as [undefined]. *)
Record ChatData := mkChatData {
  session_id : SessionId;
  response : option JsString;      (* None: not a string *)
  patient_data : PatientData
}.

(** The fields read from the body of [POST /start-session]. *)
Record SessionData := mkSessionData {
  new_session_id : SessionId;
  message : option JsString
}.

(** The fields read from the body of [GET /load-session/:id]; of a
    history entry, whether its role is ['user'], and its content. *)
Record LoadData := mkLoadData {
  loaded_session_id : SessionId;
  loaded_patient_data : PatientData;
  history : option (list (bool * option JsString))   (* None: not an array *)
}.

Section Coordinator.

Variable env : Env.

Definition showNotification (message type : JsString) : M unit :=
  emit (Notification message type) ;;
  setTimeout HideNotification 3000.

Definition updateVoiceStatus (message type : JsString) : M unit :=
  emit (VoiceStatus message type).

Definition hideVoiceStatus : M unit := emit VoiceStatusHidden.

Definition showLoading (show : bool) : M unit := emit (Loading show).

(** [addMessage]: the message element; a doctor message also gets a
    speaker icon when speech synthesis exists (see [speakerIcon_onclick]). *)
Definition addMessage (type : Role) (content : option JsString) : M unit :=
  emit (Message type content).

(** [recognition.start()]; on [null] the property access throws. *)
Definition recognition_start : M unit :=
  r <- read recognition ;;
  if r then emit RecognitionStart else throw.

(** [recognition.stop()] *)
Definition recognition_stop : M unit :=
  r <- read recognition ;;
  if r then emit RecognitionStop else throw.

(** [window.speechSynthesis.cancel()] *)
Definition speechSynthesis_cancel : M unit :=
  if speechSynthesisSupported env then emit SynthCancel else throw.

Definition stopRecording : M unit :=
  write (set_isRecording false) ;;
  emit (RecordingIndicators false).

Definition stopSpeaking : M unit :=
  speechSynthesis_cancel ;;
  write (set_isSpeaking false).

(** The callbacks are installed on the new object; they are the
    [recognition_on...] definitions below. *)
Definition initSpeechRecognition : M unit :=
  if speechRecognitionSupported env
  then write (set_recognition true)
  else showNotification (js "Voice recognition not supported in this browser")
                        (js "error").

Definition startListening : M unit :=
  r <- read recognition ;;
  (if r then skip else initSpeechRecognition) ;;
  sp <- read isSpeaking ;;
  if sp
  then emit (ConsoleLog (js "Waiting for AI to finish speaking..."))
  else
    rc <- read isRecording ;;
    if rc then skip
    else try_catch recognition_start
                   (emit (ConsoleError (js "Error starting recognition:"))).

Definition toggleVoiceInput : M unit :=
  r <- read recognition ;;
  (if r then skip else initSpeechRecognition) ;;
  rc <- read isRecording ;;
  if rc then recognition_stop else startListening.

Definition updateSessionInfo : M unit :=
  pd <- read patientData ;;
  match pd with
  | PdNullish => throw
  | PdObject n =>
      let patientInfo :=
        match n with
        | Some (u :: rest) => js "Patient: " ++ u :: rest
        | _ => js "New Patient"
        end in
      sid <- read sessionId ;;
      emit (SessionInfo patientInfo sid)
  end.

Definition speakText (text : option JsString) : M unit :=
  if negb (speechSynthesisSupported env)
  then
    emit (ConsoleError (js "Speech synthesis not supported")) ;;
    showNotification (js "Text-to-speech not supported in this browser")
                     (js "error")
  else
    sp <- read isSpeaking ;;
    (if sp then speechSynthesis_cancel else skip) ;;
    rc <- read isRecording ;;
    (if rc
     then recognition_stop ;;
          updateVoiceStatus
            (muted_speaker ++ js " Voice input paused while AI speaks...")
            (js "info")
     else skip) ;;
    match text with
    | None => throw                  (* text.replace is not a function *)
    | Some t =>
        let chosen :=
          if Nat.ltb 0 (List.length (voices env))
          then preferredVoice (voices env)
          else None in
        write (set_currentUtterance
                 (Some {| text := cleanText t; rate := 0.85; pitch := 1.1;
                          volume := 1; utterance_lang := js "en-US";
                          voice := chosen |})) ;;
        setTimeout SpeakCurrent 100
    end.

Definition toggleAutoSpeak : M unit :=
  write (fun s => set_autoSpeak (negb (autoSpeak s)) s) ;;
  a <- read autoSpeak ;;
  if a
  then
    emit (AutoSpeakIndicator true) ;;
    showNotification
      (js "Auto-speak enabled - Doctor responses will be spoken") (js "success")
  else
    emit (AutoSpeakIndicator false) ;;
    stopSpeaking ;;
    showNotification (js "Auto-speak disabled") (js "info").

Definition toggleContinuousMode : M unit :=
  write (fun s => set_continuousMode (negb (continuousMode s)) s) ;;
  c <- read continuousMode ;;
  if c
  then
    emit (ContinuousButton true) ;;
    a <- read autoSpeak ;;
    (if a then skip
     else write (set_autoSpeak true) ;; emit (AutoSpeakIndicator true)) ;;
    showNotification
      (js "Continuous conversation mode enabled! Speak naturally.")
      (js "success") ;;
    startListening
  else
    emit (ContinuousButton false) ;;
    showNotification (js "Continuous mode disabled") (js "info") ;;
    rc <- read isRecording ;;
    (if rc then recognition_stop else skip) ;;
    stopSpeaking.

(** [sendMessage], up to its first [await]. *)
Definition sendMessage : M unit :=
  v <- read messageInput ;;
  match trim v with
  | [] => skip
  | u :: rest =>
      addMessage user (Some (u :: rest)) ;;
      write (set_messageInput []) ;;
      showLoading true ;;
      sid <- read sessionId ;;
      emit (Fetch (js "/chat") sid (Some (u :: rest))) ;;
      write (fun s => set_awaitingChat (S (awaitingChat s)) s)
  end.

(** [sendMessage], from the [await]s on. *)
Definition sendMessage_resume (reply : Reply ChatData) : M unit :=
  try_finally
    (try_catch
       match reply with
       | FetchRejected | Response _ None => throw
       | Response _ (Some data) =>
           write (set_sessionId (session_id data)) ;;
           write (set_patientData (patient_data data)) ;;
           updateSessionInfo ;;
           addMessage doctor (response data) ;;
           a <- read autoSpeak ;;
           c <- read continuousMode ;;
           if a || c then speakText (response data) else skip
       end
       (emit (ConsoleError (js "Error sending message:")) ;;
        addMessage doctor (Some fallback_reply)))
    (showLoading false).

(** [startNewSession], up to its first [await]. *)
Definition startNewSession : M unit :=
  emit (Fetch (js "/start-session") SidUndefined None).

(** [startNewSession], from the [await]s on. *)
Definition startNewSession_resume (reply : Reply SessionData) : M unit :=
  try_catch
    match reply with
    | FetchRejected | Response _ None => throw
    | Response _ (Some data) =>
        write (set_sessionId (new_session_id data)) ;;
        updateSessionInfo ;;
        addMessage doctor (message data) ;;
        a <- read autoSpeak ;;
        (if a then speakText (message data) else skip) ;;
        showNotification (js "New consultation started!") (js "success")
    end
    (emit (ConsoleError (js "Error starting session:")) ;;
     showNotification (js "Failed to connect to server") (js "error")).

(** [window.onload], up to its [await]. *)
Definition window_onload : M unit :=
  startNewSession ;;
  write (fun s => set_awaitingSession (S (awaitingSession s)) s).

(** [window.onload], after [await startNewSession()]. *)
Definition window_onload_resume (reply : Reply SessionData) : M unit :=
  startNewSession_resume reply ;;
  initSpeechRecognition.

(** [restartSession], once the user has confirmed, up to its [await]. *)
Definition restartSession : M unit :=
  c <- read continuousMode ;;
  (if c then toggleContinuousMode else skip) ;;
  stopSpeaking ;;
  emit ChatCleared ;;
  write (set_patientData (PdObject None)) ;;
  startNewSession ;;
  write (fun s => set_awaitingRestart (S (awaitingRestart s)) s).

(** [restartSession], after [await startNewSession()]. *)
Definition restartSession_resume (reply : Reply SessionData) : M unit :=
  startNewSession_resume reply.

Definition closeHistory : M unit := emit HistoryClosed.

(** [data.history.forEach(msg => addMessage(...))] *)
Fixpoint addHistory (h : list (bool * option JsString)) : M unit :=
  match h with
  | [] => skip
  | (is_user, content) :: rest =>
      addMessage (if is_user then user else doctor) content ;;
      addHistory rest
  end.

(** [loadSession(id)], up to its first [await]. *)
Definition loadSession (id : JsString) : M unit :=
  showLoading true ;;
  closeHistory ;;
  emit (Fetch (js "/load-session/" ++ id) SidUndefined None) ;;
  write (fun s => set_awaitingLoad (S (awaitingLoad s)) s).

(** [loadSession], from the [await]s on. *)
Definition loadSession_resume (reply : Reply LoadData) : M unit :=
  try_finally
    (try_catch
       match reply with
       | FetchRejected | Response false _ | Response true None => throw
       | Response true (Some data) =>
           stopSpeaking ;;
           emit ChatCleared ;;
           write (set_sessionId (loaded_session_id data)) ;;
           write (set_patientData (loaded_patient_data data)) ;;
           updateSessionInfo ;;
           match history data with
           | None => throw
           | Some h => addHistory h
           end ;;
           showNotification (js "Consultation loaded successfully!")
                            (js "success")
       end
       (emit (ConsoleError (js "Error loading session:")) ;;
        showNotification
          (js "Failed to load session. Check the ID and try again.")
          (js "error")))
    (showLoading false).

(** ** Listener callbacks *)

Definition recognition_onstart : M unit :=
  write (set_isRecording true) ;;
  emit (RecordingIndicators true) ;;
  updateVoiceStatus (microphone ++ js " Listening... Speak now") (js "info") ;;
  sp <- read isSpeaking ;;
  if sp then stopSpeaking else skip.

Definition recognition_onresult (transcript : JsString) : M unit :=
  write (set_messageInput transcript) ;;
  updateVoiceStatus
    (check_mark ++ js " Voice input received: " ++ [34%Z] ++ transcript ++ [34%Z])
    (js "info") ;;
  c <- read continuousMode ;;
  if c then setTimeout SendTranscript 500 else setTimeout HideStatus 2000.

Definition recognition_onerror (error : JsString) : M unit :=
  emit (ConsoleError (js "Speech recognition error:")) ;;
  c <- read continuousMode ;;
  (if c && (units_eqb error (js "aborted") || units_eqb error (js "no-speech"))
   then emit (ConsoleLog (js "Speech recognition ended normally"))
   else updateVoiceStatus (cross_mark ++ js " Error: " ++ error) (js "error")) ;;
  stopRecording ;;
  c' <- read continuousMode ;;
  if c' && negb (units_eqb error (js "aborted"))
        && negb (units_eqb error (js "no-speech"))
  then setTimeout RestartAfterListenError 1000
  else skip.

Definition recognition_onend : M unit :=
  stopRecording ;;
  c <- read continuousMode ;;
  sp <- read isSpeaking ;;
  if c && negb sp then setTimeout RestartAfterListenEnd 500 else skip.

(** ** Speaker callbacks *)

Definition utterance_onstart : M unit :=
  write (set_isSpeaking true) ;;
  updateVoiceStatus
    (loud_speaker ++ js " AI is speaking... Voice input paused") (js "info").

Definition utterance_onend : M unit :=
  write (set_isSpeaking false) ;;
  c <- read continuousMode ;;
  if c then setTimeout RestartAfterSpeechEnd 800 else hideVoiceStatus.

Definition utterance_onerror (error : JsString) : M unit :=
  emit (ConsoleError (js "Speech synthesis error:")) ;;
  write (set_isSpeaking false) ;;
  (if negb (units_eqb error (js "interrupted"))
   then showNotification (js "Speech error: " ++ error) (js "error")
   else skip) ;;
  c <- read continuousMode ;;
  rc <- read isRecording ;;
  if c && negb rc then setTimeout RestartAfterSpeechError 1000 else skip.

(** ** The speaker icon of a doctor message *)

Definition speakerIcon_onclick (content : option JsString) : M unit :=
  sp <- read isSpeaking ;;
  if sp
  then stopSpeaking ;; emit (SpeakerIcon false)
  else speakText content ;; emit (SpeakerIcon true) ;; setTimeout IconDone 3000.

(** ** Timer callbacks *)

Definition run_timer (a : TimerAction) : M unit :=
  match a with
  | SendTranscript => sendMessage
  | HideStatus => hideVoiceStatus
  | RestartAfterListenError =>
      c <- read continuousMode ;;
      sp <- read isSpeaking ;;
      if c && negb sp then startListening else skip
  | RestartAfterListenEnd =>
      c <- read continuousMode ;;
      if c then startListening else skip
  | RestartAfterSpeechEnd =>
      c <- read continuousMode ;;
      rc <- read isRecording ;;
      if c && negb rc
      then updateVoiceStatus (microphone ++ js " Ready to listen again...")
                             (js "info") ;;
           startListening
      else skip
  | RestartAfterSpeechError => startListening
  | SpeakCurrent =>
      u <- read currentUtterance ;;
      match u with
      | Some u => emit (SynthSpeak u)
      | None => throw
      end
  | HideNotification => emit NotificationHidden
  | IconDone => emit (SpeakerIcon false)
  end.

(* ================================================================== *)
(** * The event loop *)
(* ================================================================== *)

(** One task of the event loop: a user action, a capability callback, a
    timer that fires, or a request that settles. *)
Inductive Event :=
| WindowLoad
| StartSessionSettles (reply : Reply SessionData)
| ConfirmNewConsultation
| RestartSettles (reply : Reply SessionData)
| OpenSession (id : JsString)
| LoadSettles (reply : Reply LoadData)
| ClickVoiceButton
| ClickAutoSpeak
| ClickContinuousMode
| TypeMessage (value : JsString)
| Submit
| ClickSpeakerIcon (content : option JsString)
| ListenerStart
| ListenerResult (transcript : JsString)
| ListenerError (error : JsString)
| ListenerEnd
| SpeakerStart
| SpeakerEnd
| SpeakerError (error : JsString)
| TimerFires (n : nat)
| ChatSettles (reply : Reply ChatData).

Fixpoint remove_nth {A} (n : nat) (l : list A) : list A :=
  match n, l with
  | _, [] => []
  | O, _ :: t => t
  | S k, x :: t => x :: remove_nth k t
  end.

(** A callback runs only if the object that carries it exists; a request
    settles only if one is pending; the [n]-th pending timer fires and is
    gone. *)
Definition handle (ev : Event) : M unit :=
  match ev with
  | WindowLoad => window_onload
  | StartSessionSettles reply =>
      n <- read awaitingSession ;;
      match n with
      | O => skip
      | S k => write (set_awaitingSession k) ;; window_onload_resume reply
      end
  | ConfirmNewConsultation => restartSession
  | RestartSettles reply =>
      n <- read awaitingRestart ;;
      match n with
      | O => skip
      | S k => write (set_awaitingRestart k) ;; restartSession_resume reply
      end
  | OpenSession id => loadSession id
  | LoadSettles reply =>
      n <- read awaitingLoad ;;
      match n with
      | O => skip
      | S k => write (set_awaitingLoad k) ;; loadSession_resume reply
      end
  | ClickVoiceButton => toggleVoiceInput
  | ClickAutoSpeak => toggleAutoSpeak
  | ClickContinuousMode => toggleContinuousMode
  | TypeMessage value => write (set_messageInput value)
  | Submit => sendMessage
  | ClickSpeakerIcon content =>
      if speechSynthesisSupported env then speakerIcon_onclick content else skip
  | ListenerStart =>
      r <- read recognition ;; if r then recognition_onstart else skip
  | ListenerResult transcript =>
      r <- read recognition ;; if r then recognition_onresult transcript else skip
  | ListenerError error =>
      r <- read recognition ;; if r then recognition_onerror error else skip
  | ListenerEnd =>
      r <- read recognition ;; if r then recognition_onend else skip
  | SpeakerStart =>
      u <- read currentUtterance ;;
      match u with Some _ => utterance_onstart | None => skip end
  | SpeakerEnd =>
      u <- read currentUtterance ;;
      match u with Some _ => utterance_onend | None => skip end
  | SpeakerError error =>
      u <- read currentUtterance ;;
      match u with Some _ => utterance_onerror error | None => skip end
  | TimerFires n =>
      ts <- read timers ;;
      match nth_error ts n with
      | Some t => write (set_timers (remove_nth n ts)) ;; run_timer (action t)
      | None => skip
      end
  | ChatSettles reply =>
      n <- read awaitingChat ;;
      match n with
      | O => skip
      | S k => write (set_awaitingChat k) ;; sendMessage_resume reply
      end
  end.

(** An exception that reaches the event loop ends the task; the writes it
    made stay. *)
Definition exec (m : M unit) (s : State) : State := snd (m s).

Definition step (s : State) (ev : Event) : State := exec (handle ev) s.

Definition run (evs : list Event) (s : State) : State := fold_left step evs s.

End Coordinator.

(* ================================================================== *)
(** * Reachable states, trace predicates and a concrete browser *)
(* ================================================================== *)

(** The states the page can be in: any run of the event loop from the
    state at load. *)
Definition reachable (env : Env) (s : State) : Prop :=
  exists evs, s = run env evs initial.

(** What holds of the globals in every reachable state: a flag is only
    set by a callback of an object that exists. *)
Definition consistent (env : Env) (s : State) : bool :=
  implb (isRecording s) (recognition s)
  && implb (isSpeaking s) (speechSynthesisSupported env)
  && implb (match currentUtterance s with Some _ => true | None => false end)
           (speechSynthesisSupported env).

(** A start of the listener is in order when neither flag was set at the
    instant it was issued. *)
Definition start_in_order (e : LogEntry) : bool :=
  match what e with
  | RecognitionStart =>
      negb (recording (at_flags e)) && negb (speaking (at_flags e))
  | _ => true
  end.

(** An error the user gets to see: a status line or a notification of type
    ['error']. *)
Definition visible_error (e : Effect) : bool :=
  match e with
  | VoiceStatus _ type | Notification _ type => units_eqb type (js "error")
  | _ => false
  end.

Definition is_restart (t : Timer) : bool :=
  match action t with
  | RestartAfterListenError | RestartAfterListenEnd
  | RestartAfterSpeechEnd | RestartAfterSpeechError => true
  | _ => false
  end.

(** [v] is the first element of [l] that satisfies [p]. *)
Definition first_such {A} (p : A -> bool) (l : list A) (v : A) : Prop :=
  exists l1 l2,
    l = l1 ++ v :: l2 /\ p v = true /\ forall x, In x l1 -> p x = false.

(** A desktop browser with both capabilities and two voices. *)
Definition alex : SpeechSynthesisVoice := mkVoice (js "Alex") (js "en-US").
Definition catherine : SpeechSynthesisVoice :=
  mkVoice (js "Microsoft Catherine") (js "en-AU").
Definition desktop : Env := mkEnv true true [alex; catherine].

Definition greeting : Reply SessionData :=
  Response true (Some (mkSessionData (SidStr (js "s1")) (Some (js "Hello")))).
Definition answer : Reply ChatData :=
  Response true
    (Some (mkChatData (SidStr (js "s1")) (Some (js "Take rest"))
             (PdObject None))).

(** The answer of a backend that does not know the session: status 404
    and a JSON body with a [detail] field only. *)
Definition not_found : Reply ChatData :=
  Response false (Some (mkChatData SidUndefined None PdNullish)).

(** The page has loaded and the session has started. *)
Definition loaded : State :=
  run desktop [WindowLoad; StartSessionSettles greeting] initial.

(** A message has been typed and sent; its answer is pending. *)
Definition awaiting_answer : State :=
  run desktop [TypeMessage (js "hi"); Submit] loaded.

(** Auto-speak is on, a reply has come and is being spoken. *)
Definition while_speaking : State :=
  run desktop
    [ClickAutoSpeak; TypeMessage (js "hi"); Submit; ChatSettles answer;
     TimerFires 2; SpeakerStart] loaded.

(** The microphone button was pressed and the listener has started. *)
Definition while_listening : State :=
  run desktop [ClickVoiceButton; ListenerStart] loaded.

(** Continuous mode is on and the listener has started. *)
Definition continuous_listening : State :=
  run desktop [ClickContinuousMode; ListenerStart] loaded.

(** Continuous mode is on, and auto-speak has been turned off again. *)
Definition continuous_without_auto : State :=
  run desktop [ClickAutoSpeak] continuous_listening.

(** Continuous mode: the greeting is replayed, the speaker fails, and the
    user turns continuous mode off within the second that follows. *)
Definition after_speech_error : State :=
  run desktop
    [ClickSpeakerIcon (Some (js "Hello")); ListenerEnd; TimerFires 2;
     SpeakerStart; TimerFires 3; SpeakerError (js "audio-busy");
     ClickContinuousMode] continuous_listening.

(** The names of the preference list, and a name that contains one. *)
Definition preference_list : list JsString :=
  [js "Female"; js "Samantha"; js "Victoria"; js "Google"; js "Microsoft"].

Definition preferred_name (voice : SpeechSynthesisVoice) : bool :=
  existsb (includes (name voice)) preference_list.

(** A language tag of US or British English. *)
Definition us_or_gb (voice : SpeechSynthesisVoice) : bool :=
  includes (lang voice) (js "en-US") || includes (lang voice) (js "en-GB").

(* ================================================================== *)
(** * Auxiliary notions for the text cleaning *)
(* ================================================================== *)

(** The text without the newlines it starts with, and without those it
    ends with. *)
Definition strip_leading (u : Z) (s : JsString) : JsString :=
  skipn (Regex.run_length u s) s.

Definition strip_trailing (u : Z) (s : JsString) : JsString :=
  rev (strip_leading u (rev s)).

(** The last [replace] as one pass that counts the newlines of the current
    run it has kept; shown below to be the same function. *)
Fixpoint cap_newlines (seen : nat) (s : JsString) : JsString :=
  match s with
  | [] => []
  | u :: t =>
      if Z.eqb u NL
      then if Nat.ltb seen 2
           then u :: cap_newlines (S seen) t
           else cap_newlines seen t
      else u :: cap_newlines 0 t
  end.

(** The count [cap_newlines] has reached at the end of [s]. *)
Fixpoint seen_after (seen : nat) (s : JsString) : nat :=
  match s with
  | [] => seen
  | u :: t =>
      if Z.eqb u NL
      then seen_after (if Nat.ltb seen 2 then S seen else seen) t
      else seen_after 0 t
  end.

(** A text cut into pieces: plain text, and the decorative items the
    cleaning is after. *)
Inductive Piece :=
| Plain (p : JsString)
| Emoji (e : JsString)
| Bars (n : nat)            (* a run of [S n] bars *)
| Bold.                     (* the marker ** *)

Definition content (x : Piece) : JsString :=
  match x with
  | Plain p => p
  | Emoji e => e
  | Bars n => repeat HBAR (S n)
  | Bold => [STAR; STAR]
  end.

Definition flatten (ps : list Piece) : JsString := List.concat (map content ps).

(** The code units that occur in a decorative item. *)
Definition decorative_units : list Z := List.concat emoji ++ [HBAR; STAR].

Definition plain_unit (u : Z) : bool := negb (existsb (Z.eqb u) decorative_units).

(** Plain pieces hold no code unit of a decorative item; emoji pieces are
    alternatives of the first regular expression. *)
Definition well_cut (x : Piece) : Prop :=
  match x with
  | Plain p => forallb plain_unit p = true
  | Emoji e => In e emoji
  | Bars _ | Bold => True
  end.

Definition is_plain (x : Piece) : bool :=
  match x with Plain _ => true | _ => false end.
Definition is_emoji (x : Piece) : bool :=
  match x with Emoji _ => true | _ => false end.
Definition is_bars (x : Piece) : bool :=
  match x with Bars _ => true | _ => false end.
Definition is_bold (x : Piece) : bool :=
  match x with Bold => true | _ => false end.

(** A shield, a stethoscope and a variation selector. *)
Definition joined_shield : JsString :=
  [0xD83D; 0xDEE1]%Z ++ stethoscope ++ [VS16].

(** No match of [m] starts at a newline or runs across one. *)
Record barrier (m : Regex.Matcher) : Prop := {
  barrier_start : forall y k, m (NL :: y) <> Some (S k);
  barrier_stop : forall c x y, m (c :: x ++ NL :: y) = m (c :: x);
  barrier_fit : forall x k, m x = Some k -> k <= List.length x
}.

Definition no_newline (lit : JsString) : bool :=
  forallb (fun u => negb (Z.eqb u NL)) lit.

(** No alternative of the first expression starts with [u]. *)
Definition starts_no_emoji (u : Z) : bool :=
  forallb (fun a => negb (startsWith [u] a)) emoji.

(* ================================================================== *)
(** * A text with its deletions marked *)
(* ================================================================== *)

(** A text in which every code unit carries a mark: kept, or deleted. *)
Definition Marked := list (Z * bool).

Definition units (m : Marked) : JsString := map fst m.
Definition kept (m : Marked) : JsString := map fst (filter snd m).
Definition all_deleted (m : Marked) : bool := forallb (fun x => negb (snd x)) m.
Definition some_deleted (m : Marked) : bool := existsb (fun x => negb (snd x)) m.

(** The scan of [text.replace(/re/g, '')], marking instead of deleting:
    [Regex.replace_from] with the units of every match marked deleted and
    every copied unit marked kept. *)
Fixpoint mark_from (m : Regex.Matcher) (skip : nat) (s : JsString) : Marked :=
  match s with
  | [] => []
  | c :: t =>
      match skip with
      | S k => (c, false) :: mark_from m k t
      | O =>
          match m s with
          | Some (S k) => (c, false) :: mark_from m k t
          | _ => (c, true) :: mark_from m 0 t
          end
      end
  end.

(** The same text, with no unit kept that the other marking deletes. *)
Definition thinner (m' m : Marked) : Prop :=
  Forall2 (fun x' x => fst x' = fst x /\ (snd x' = true -> snd x = true)) m' m.

(* ================================================================== *)
(** * Specifications of statements *)
(* ================================================================== *)

(** [triple P m Q]: run from a state in [P], the statement [m] ends, by
    return or by throw, in a state in [Q]. *)
Definition triple {A} (P : State -> Prop) (m : M A) (Q : State -> Prop) : Prop :=
  forall s, P s -> Q (snd (m s)).

Definition preserves {A} (P : State -> Prop) (m : M A) : Prop := triple P m P.

(** The invariant of the event loop: the globals are consistent and every
    start of the listener logged so far was in order. *)
Definition invariant (env : Env) (s : State) : Prop :=
  consistent env s = true /\ forallb start_in_order (log s) = true.

(* ================================================================== *)
(** * Further notions: leaving the page, subsequences, a second browser *)
(* ================================================================== *)

(** The [beforeunload] listener of the window. *)
Definition window_beforeunload (env : Env) : M unit :=
  stopSpeaking env ;;
  c <- read continuousMode ;;
  r <- read recognition ;;
  if c && r then recognition_stop else skip.

(** [a] is [b] with some of its elements left out. *)
Inductive subseq {A : Type} : list A -> list A -> Prop :=
| subseq_nil : subseq [] []
| subseq_keep (x : A) (a b : list A) : subseq a b -> subseq (x :: a) (x :: b)
| subseq_drop (x : A) (a b : list A) : subseq a b -> subseq a (x :: b).

(** The text holds nothing the cleaning is after: no listed emoji, no
    bar, no bold marker, no three newlines in a row. *)
Definition nothing_to_clean (t : JsString) : bool :=
  forallb (fun e => negb (includes t e)) emoji
  && negb (existsb (Z.eqb HBAR) t)
  && negb (includes t [STAR; STAR])
  && negb (includes t [NL; NL; NL]).

(** The log entries [addHistory] writes. *)
Definition history_message (m : bool * option JsString) : Effect :=
  Message (if fst m then user else doctor) (snd m).

(** A statement returns, rather than throws. *)
Definition returns {A} (m : M A) (s : State) : Prop :=
  match fst (m s) with
  | Normal _ => True
  | Thrown => False
  end.

(** A browser with speech recognition and without speech synthesis. *)
Definition silent : Env := mkEnv true false [].

Definition silent_loaded : State :=
  run silent [WindowLoad; StartSessionSettles greeting] initial.

(** In the silent browser, auto-speak has been turned on. *)

(** The listener has ended in continuous mode; its restart is pending. *)
Definition restart_pending : State :=
  run desktop [ListenerEnd] continuous_listening.

(** A stored session with two messages. *)
Definition stored : LoadData :=
  mkLoadData (SidStr (js "s0")) (PdObject (Some (js "Ann")))
    (Some [(true, Some (js "hi")); (false, Some (js "Hello Ann"))]).


(** A restart timer that looks at [continuousMode] when it fires. *)
Definition checks_mode (a : TimerAction) : bool :=
  match a with RestartAfterSpeechError => false | _ => true end.

(** The replies that make [loadSession] fail before it touches anything:
    the request is rejected, the status is not in the 200s, or the body
    is not JSON. *)
Definition load_fails (reply : Reply LoadData) : bool :=
  match reply with
  | Response true (Some _) => false
  | _ => true
  end.

(** The replies on which [startNewSession] reads no body. *)
Definition no_body {A} (reply : Reply A) : bool :=
  match reply with
  | Response _ (Some _) => false
  | _ => true
  end.

(** The expression matches at the current index, and matches there at
    least one code unit. *)
Definition hit (m : Regex.Matcher) (s : JsString) : bool :=
  match m s with Some (S _) => true | _ => false end.

(** The expression matches somewhere in the text. *)
Fixpoint occurs (m : Regex.Matcher) (s : JsString) : bool :=
  hit m s || match s with [] => false | _ :: t => occurs m t end.

(** Every match lies within the text and is longer than what replaces it. *)
Definition shrinking (m : Regex.Matcher) (rep : JsString) : Prop :=
  forall x j, m x = Some (S j) ->
    List.length rep <= j /\ S j <= List.length x.

(* ================================================================== *)
(** * The summary, its PDF and the session id box *)
(* ================================================================== *)

(** A field of a JSON body that the script prints in a template literal
    or tests for truth: a string, [null], or absent. *)
Inductive JsonText := TextUndefined | TextNull | Text (s : JsString).

(** [`${v}`] *)
Definition to_string (v : JsonText) : JsString :=
  match v with
  | TextUndefined => js "undefined"
  | TextNull => js "null"
  | Text s => s
  end.

Definition truthy (v : JsonText) : bool :=
  match v with Text (_ :: _) => true | _ => false end.

(** [!sessionId] *)
Definition no_session (sid : SessionId) : bool :=
  match sid with SidStr (_ :: _) => false | _ => true end.

(** The fields read from the body of [POST /summary]. *)
Record SummaryData := mkSummaryData { summary : JsonText; pdf_url : JsonText }.

(** The two further fields [loadSession] reads from the body of
    [GET /load-session/:id]; of [has_pdf], whether it is truthy. *)
Record StoredPdf := mkStoredPdf { has_pdf : bool; stored_pdf_url : JsonText }.

(** The two notifications of [generateSummary]. *)
Definition generating : JsString :=
  js "Generating comprehensive detailed summary and PDF... "
  ++ js "This may take 30-60 seconds".
Definition generated : JsString :=
  js "Comprehensive summary and professional PDF generated successfully!".

Definition eye : JsString := [0xD83D; 0xDC41; 0xFE0F]%Z.    (* U+1F441 U+FE0F *)
Definition see_no_evil : JsString := [0xD83D; 0xDE48]%Z.    (* U+1F648 *)

Module Pdf.

(** The page: the coordinator's globals, [currentPdfUrl], and the
    properties of the document that the summary functions read or write.
    What the document holds at load is in the HTML, so nothing is said of
    a first page: the theorems hold from any page. *)
Record Page := mkPage {
  globals : State;
  currentPdfUrl : option JsString;         (* None: null *)
  sessionIdInput : JsString;               (* #sessionIdInput.value *)
  summaryText : JsonText;                  (* #summaryText.textContent *)
  pdfDownloadInfo : JsString;              (* #pdfDownloadInfo.style.display *)
  downloadPdfBtn : JsString;               (* #downloadPdfBtn.style.display *)
  viewPdfBtnDisplay : JsString;            (* #viewPdfBtn.style.display *)
  viewPdfBtnText : JsString;               (* #viewPdfBtn.textContent *)
  summaryModal : bool;                     (* #summaryModal is active *)
  pdfViewerContainer : JsString;           (* its style.display *)
  pdfViewerSrc : option JsString;          (* #pdfViewer.src, as assigned *)
  downloads : list (JsString * JsString)   (* link.click(): href, download *)
}.

Definition set_globals v p :=
  mkPage v (currentPdfUrl p) (sessionIdInput p) (summaryText p)
    (pdfDownloadInfo p) (downloadPdfBtn p) (viewPdfBtnDisplay p)
    (viewPdfBtnText p) (summaryModal p) (pdfViewerContainer p)
    (pdfViewerSrc p) (downloads p).
Definition set_currentPdfUrl v p :=
  mkPage (globals p) v (sessionIdInput p) (summaryText p)
    (pdfDownloadInfo p) (downloadPdfBtn p) (viewPdfBtnDisplay p)
    (viewPdfBtnText p) (summaryModal p) (pdfViewerContainer p)
    (pdfViewerSrc p) (downloads p).
Definition set_summaryText v p :=
  mkPage (globals p) (currentPdfUrl p) (sessionIdInput p) v
    (pdfDownloadInfo p) (downloadPdfBtn p) (viewPdfBtnDisplay p)
    (viewPdfBtnText p) (summaryModal p) (pdfViewerContainer p)
    (pdfViewerSrc p) (downloads p).
Definition set_pdfDownloadInfo v p :=
  mkPage (globals p) (currentPdfUrl p) (sessionIdInput p) (summaryText p) v
    (downloadPdfBtn p) (viewPdfBtnDisplay p) (viewPdfBtnText p)
    (summaryModal p) (pdfViewerContainer p) (pdfViewerSrc p) (downloads p).
Definition set_downloadPdfBtn v p :=
  mkPage (globals p) (currentPdfUrl p) (sessionIdInput p) (summaryText p)
    (pdfDownloadInfo p) v (viewPdfBtnDisplay p) (viewPdfBtnText p)
    (summaryModal p) (pdfViewerContainer p) (pdfViewerSrc p) (downloads p).
Definition set_viewPdfBtnDisplay v p :=
  mkPage (globals p) (currentPdfUrl p) (sessionIdInput p) (summaryText p)
    (pdfDownloadInfo p) (downloadPdfBtn p) v (viewPdfBtnText p)
    (summaryModal p) (pdfViewerContainer p) (pdfViewerSrc p) (downloads p).
Definition set_viewPdfBtnText v p :=
  mkPage (globals p) (currentPdfUrl p) (sessionIdInput p) (summaryText p)
    (pdfDownloadInfo p) (downloadPdfBtn p) (viewPdfBtnDisplay p) v
    (summaryModal p) (pdfViewerContainer p) (pdfViewerSrc p) (downloads p).
Definition set_summaryModal v p :=
  mkPage (globals p) (currentPdfUrl p) (sessionIdInput p) (summaryText p)
    (pdfDownloadInfo p) (downloadPdfBtn p) (viewPdfBtnDisplay p)
    (viewPdfBtnText p) v (pdfViewerContainer p) (pdfViewerSrc p)
    (downloads p).
Definition set_pdfViewerContainer v p :=
  mkPage (globals p) (currentPdfUrl p) (sessionIdInput p) (summaryText p)
    (pdfDownloadInfo p) (downloadPdfBtn p) (viewPdfBtnDisplay p)
    (viewPdfBtnText p) (summaryModal p) v (pdfViewerSrc p) (downloads p).
Definition set_pdfViewerSrc v p :=
  mkPage (globals p) (currentPdfUrl p) (sessionIdInput p) (summaryText p)
    (pdfDownloadInfo p) (downloadPdfBtn p) (viewPdfBtnDisplay p)
    (viewPdfBtnText p) (summaryModal p) (pdfViewerContainer p) v
    (downloads p).
Definition set_downloads v p :=
  mkPage (globals p) (currentPdfUrl p) (sessionIdInput p) (summaryText p)
    (pdfDownloadInfo p) (downloadPdfBtn p) (viewPdfBtnDisplay p)
    (viewPdfBtnText p) (summaryModal p) (pdfViewerContainer p)
    (pdfViewerSrc p) v.

(** Statements over the page; those of the coordinator run on its
    globals. *)
Definition PM (A : Type) := Page -> Completion A * Page.

Definition pret {A} (a : A) : PM A := fun p => (Normal a, p).

Definition pbind {A B} (m : PM A) (k : A -> PM B) : PM B :=
  fun p =>
    match m p with
    | (Normal a, p') => k a p'
    | (Thrown, p') => (Thrown, p')
    end.

Definition pthrow {A} : PM A := fun p => (Thrown, p).
Definition pread {A} (f : Page -> A) : PM A := fun p => (Normal (f p), p).
Definition pwrite (f : Page -> Page) : PM unit := fun p => (Normal tt, f p).
Definition pskip : PM unit := pret tt.

Definition lift {A} (m : M A) : PM A :=
  fun p =>
    match m (globals p) with
    | (c, s) => (c, set_globals s p)
    end.

Definition ptry_catch (body handler : PM unit) : PM unit :=
  fun p =>
    match body p with
    | (Normal a, p') => (Normal a, p')
    | (Thrown, p') => handler p'
    end.

Definition ptry_finally (body fin : PM unit) : PM unit :=
  fun p =>
    match body p with
    | (Normal _, p') => fin p'
    | (Thrown, p') =>
        match fin p' with
        | (Normal _, p'') => (Thrown, p'')
        | thrown => thrown
        end
    end.

Declare Scope page_scope.
Delimit Scope page_scope with page.
Notation "x <- m ;; k" := (pbind m (fun x => k))
  (at level 61, m at next level, right associativity) : page_scope.
Notation "m ;; k" := (pbind m (fun _ => k))
  (at level 61, right associativity) : page_scope.

Section Page.
Local Open Scope page_scope.

Variable env : Env.
Variable API_URL : JsString.     (* window.location.origin *)

(** [generateSummary], up to its first [await]. *)
Definition generateSummary : PM unit :=
  sid <- lift (read sessionId) ;;
  if no_session sid
  then lift (showNotification (js "No active session") (js "error"))
  else
    lift (showLoading true) ;;
    lift (showNotification generating (js "success")) ;;
    lift (emit (Fetch (js "/summary") sid None)).

(** [generateSummary], from the [await]s on. *)
Definition generateSummary_resume (reply : Reply SummaryData) : PM unit :=
  ptry_finally
    (ptry_catch
       match reply with
       | FetchRejected | Response _ None => pthrow
       | Response _ (Some data) =>
           pwrite (set_currentPdfUrl
                     (Some (API_URL ++ to_string (pdf_url data)))) ;;
           pwrite (set_summaryText (summary data)) ;;
           pwrite (set_pdfDownloadInfo (js "block")) ;;
           pwrite (set_downloadPdfBtn (js "inline-block")) ;;
           pwrite (set_viewPdfBtnDisplay (js "inline-block")) ;;
           pwrite (set_summaryModal true) ;;
           lift (showNotification generated (js "success"))
       end
       (lift (emit (ConsoleError (js "Error generating summary:"))) ;;
        lift (showNotification
                (js "Failed to generate summary. Please try again.")
                (js "error"))))
    (lift (showLoading false)).

(** The name under which the PDF is saved: [sessionId.substring(0, 8)]
    between a fixed prefix and suffix. *)
Definition download_name (id : JsString) : JsString :=
  js "Consultation_Summary_" ++ firstn 8 id ++ js ".pdf".

Definition downloadPDF : PM unit :=
  url <- pread currentPdfUrl ;;
  match url with
  | None | Some [] =>
      lift (showNotification (js "No PDF available") (js "error"))
  | Some (u :: rest) =>
      sid <- lift (read sessionId) ;;
      match sid with
      | SidStr id =>
          pwrite (fun p =>
                    set_downloads
                      (downloads p ++ [(u :: rest, download_name id)]) p) ;;
          lift (showNotification (js "PDF download started!") (js "success"))
      | _ => pthrow                (* sessionId.substring on null or undefined *)
      end
  end.

Definition togglePDFViewer : PM unit :=
  d <- pread pdfViewerContainer ;;
  if units_eqb d (js "none")
  then
    url <- pread currentPdfUrl ;;
    pwrite (set_pdfViewerSrc url) ;;
    pwrite (set_pdfViewerContainer (js "block")) ;;
    pwrite (set_viewPdfBtnText (see_no_evil ++ js " Hide PDF"))
  else
    pwrite (set_pdfViewerContainer (js "none")) ;;
    pwrite (set_viewPdfBtnText (eye ++ js " View PDF")).

Definition closeSummary : PM unit :=
  pwrite (set_summaryModal false) ;;
  pwrite (set_pdfViewerContainer (js "none")) ;;
  pwrite (set_viewPdfBtnText (eye ++ js " View PDF")).

(** [loadSessionById], up to the first [await] of [loadSession]. *)
Definition loadSessionById : PM unit :=
  v <- pread sessionIdInput ;;
  match trim v with
  | [] => lift (showNotification (js "Please enter a Session ID") (js "error"))
  | u :: rest => lift (loadSession (u :: rest))
  end.

(** [loadSession], from the [await]s on, with the line that records the
    PDF of the stored session. *)
Definition loadSession_resume (reply : Reply (LoadData * StoredPdf)) : PM unit :=
  ptry_finally
    (ptry_catch
       match reply with
       | FetchRejected | Response false _ | Response true None => pthrow
       | Response true (Some (data, pdf)) =>
           lift (stopSpeaking env) ;;
           lift (emit ChatCleared) ;;
           lift (write (set_sessionId (loaded_session_id data))) ;;
           lift (write (set_patientData (loaded_patient_data data))) ;;
           lift updateSessionInfo ;;
           match history data with
           | None => pthrow
           | Some h => lift (addHistory h)
           end ;;
           (if has_pdf pdf && truthy (stored_pdf_url pdf)
            then pwrite (set_currentPdfUrl
                           (Some (API_URL ++ to_string (stored_pdf_url pdf))))
            else pskip) ;;
           lift (showNotification (js "Consultation loaded successfully!")
                                  (js "success"))
       end
       (lift (emit (ConsoleError (js "Error loading session:"))) ;;
        lift (showNotification
                (js "Failed to load session. Check the ID and try again.")
                (js "error"))))
    (lift (showLoading false)).

(** [restartSession], once the user has confirmed, up to its [await],
    with the line that forgets the PDF. *)
Definition restartSession : PM unit :=
  c <- lift (read continuousMode) ;;
  (if c then lift (toggleContinuousMode env) else pskip) ;;
  lift (stopSpeaking env) ;;
  lift (emit ChatCleared) ;;
  lift (write (set_patientData (PdObject None))) ;;
  pwrite (set_currentPdfUrl None) ;;
  lift startNewSession ;;
  lift (write (fun s => set_awaitingRestart (S (awaitingRestart s)) s)).

End Page.

Definition exec (m : PM unit) (p : Page) : Page := snd (m p).

Definition returns {A} (m : PM A) (p : Page) : Prop :=
  match fst (m p) with Normal _ => True | Thrown => False end.

End Pdf.

(** The reply as the coordinator's [loadSession] reads it. *)
Definition without_pdf (reply : Reply (LoadData * StoredPdf)) : Reply LoadData :=
  match reply with
  | FetchRejected => FetchRejected
  | Response ok None => Response ok None
  | Response ok (Some (data, _)) => Response ok (Some data)
  end.

(** An origin; a page with no PDF, an empty id box and the summary
    closed; and that page after a summary has been made for the session
    of [loaded]. *)
Definition origin : JsString := js "https://clinic.example".

Definition plain_page (s : State) : Pdf.Page :=
  Pdf.mkPage s None [] TextUndefined [] [] [] [] false (js "none") None [].

Definition summarised : Pdf.Page :=
  Pdf.exec
    (Pdf.generateSummary_resume origin
       (Response true
          (Some (mkSummaryData (Text (js "Rest and fluids."))
                   (Text (js "/pdf/s1.pdf"))))))
    (plain_page loaded).

(** A stored session that has no PDF. *)
Definition stored_pdf_less : LoadData * StoredPdf :=
  (stored, mkStoredPdf false TextNull).

(* ================================================================== *)
(** * Proof tools *)
(* ================================================================== *)

Lemma skipn_length_app {A} (l l' : list A) :
  skipn (List.length l) (l ++ l') = l'.
Proof. induction l; simpl; auto. Qed.

Lemma skipn_length_self {A} (l : list A) : skipn (List.length l) l = [].
Proof. induction l; simpl; auto. Qed.

(** Unfolds the statements down to the record of globals, and leaves the
    string functions folded. *)
Ltac unfold_js :=
  cbv beta iota zeta delta
    [exec step handle bind ret throw read write skip try_catch try_finally
     emit setTimeout showNotification updateVoiceStatus hideVoiceStatus
     showLoading addMessage recognition_start recognition_stop
     speechSynthesis_cancel stopRecording stopSpeaking initSpeechRecognition
     startListening toggleVoiceInput updateSessionInfo speakText
     toggleAutoSpeak toggleContinuousMode sendMessage sendMessage_resume
     startNewSession startNewSession_resume window_onload window_onload_resume
     restartSession restartSession_resume closeHistory loadSession
     loadSession_resume
     recognition_onstart recognition_onresult recognition_onerror
     recognition_onend utterance_onstart utterance_onend utterance_onerror
     speakerIcon_onclick run_timer
     set_sessionId set_patientData set_recognition set_isRecording
     set_autoSpeak set_currentUtterance set_isSpeaking set_continuousMode
     set_messageInput set_timers set_awaitingChat set_awaitingSession
     set_awaitingRestart set_awaitingLoad set_log
     flags_of sessionId patientData recognition isRecording autoSpeak
     currentUtterance isSpeaking continuousMode messageInput timers
     awaitingChat awaitingSession awaitingRestart awaitingLoad log
     speechRecognitionSupported
     speechSynthesisSupported voices emitted scheduled session_id response
     patient_data new_session_id message loaded_session_id
     loaded_patient_data history
     snd fst negb andb orb implb].

(** Brings what a statement appended to the log and to the timers into
    the open. *)
Ltac appended :=
  rewrite ?skipn_length_app, ?skipn_length_self;
  rewrite <- ?app_assoc;
  cbn [app];
  rewrite ?skipn_length_app, ?skipn_length_self;
  cbn [map what action delay at_flags recording speaking auto continuous].

Ltac not_in :=
  let H := fresh in intro H; cbn [In] in H; intuition discriminate.

(* ================================================================== *)
(** * Hoare rules for statements *)
(* ================================================================== *)

Section Rules.

Context {A B : Type}.
Variables P Q R : State -> Prop.

Lemma triple_ret (a : A) : preserves P (ret a).
Proof. intros s H; exact H. Qed.

Lemma triple_throw : preserves P (@throw A).
Proof. intros s H; exact H. Qed.

Lemma triple_read (f : State -> A) : preserves P (read f).
Proof. intros s H; exact H. Qed.

Lemma triple_write (f : State -> State) :
  (forall s, P s -> Q (f s)) -> triple P (write f) Q.
Proof. intros H s Hs; apply H, Hs. Qed.

Lemma triple_bind (m : M A) (k : A -> M B) :
  triple P m R -> (forall a, triple R (k a) Q) -> (forall s, R s -> Q s) ->
  triple P (bind m k) Q.
Proof.
  intros Hm Hk Hw s Hs. unfold bind.
  specialize (Hm s Hs). destruct (m s) as [[a |] s']; cbn [snd] in *.
  - apply Hk, Hm.
  - apply Hw, Hm.
Qed.

(** After a read the value is known to be what the state holds. *)
Lemma triple_read_bind (f : State -> A) (k : A -> M B) :
  (forall a, triple (fun s => P s /\ f s = a) (k a) Q) ->
  triple P (bind (read f) k) Q.
Proof. intros H s Hs. unfold bind, read. apply (H (f s) s). auto. Qed.

Lemma triple_skip : preserves P skip.
Proof. intros s H; exact H. Qed.

Lemma triple_weaken (m : M A) :
  (forall s, P s -> R s) -> triple R m Q -> triple P m Q.
Proof. intros H Hm s Hs. apply Hm, H, Hs. Qed.

End Rules.

Lemma preserves_bind {A B} (P : State -> Prop) (m : M A) (k : A -> M B) :
  preserves P m -> (forall a, preserves P (k a)) -> preserves P (bind m k).
Proof. intros Hm Hk. apply triple_bind with (R := P); auto. Qed.

Lemma preserves_try_catch (P : State -> Prop) (body handler : M unit) :
  preserves P body -> preserves P handler -> preserves P (try_catch body handler).
Proof.
  intros Hb Hh s Hs. unfold try_catch.
  specialize (Hb s Hs). destruct (body s) as [[a |] s']; cbn [snd] in *; auto.
Qed.

Lemma preserves_try_finally (P : State -> Prop) (body fin : M unit) :
  preserves P body -> preserves P fin -> preserves P (try_finally body fin).
Proof.
  intros Hb Hf s Hs. unfold try_finally.
  specialize (Hb s Hs). destruct (body s) as [[a |] s']; cbn [snd] in *.
  - apply Hf, Hb.
  - specialize (Hf s' Hb). destruct (fin s') as [[a |] s'']; auto.
Qed.

(* ================================================================== *)
(** * The invariant of the event loop *)
(* ================================================================== *)

Lemma consistent_iff (env : Env) (s : State) :
  consistent env s = true <->
  (isRecording s = true -> recognition s = true)
  /\ (isSpeaking s = true -> speechSynthesisSupported env = true)
  /\ (currentUtterance s <> None -> speechSynthesisSupported env = true).
Proof.
  unfold consistent.
  destruct (isRecording s), (recognition s), (isSpeaking s),
    (speechSynthesisSupported env), (currentUtterance s);
    cbn; intuition congruence.
Qed.

(** A write that leaves the listener, the speaker and the log alone. *)
Lemma invariant_frame (env : Env) (s s' : State) :
  isRecording s' = isRecording s ->
  recognition s' = recognition s ->
  isSpeaking s' = isSpeaking s ->
  currentUtterance s' = currentUtterance s ->
  log s' = log s ->
  invariant env s -> invariant env s'.
Proof.
  unfold invariant, consistent. intros -> -> -> -> ->. auto.
Qed.

Section Preservation.

Variable env : Env.

Let Inv := invariant env.

Lemma write_frame (f : State -> State) :
  (forall s, isRecording (f s) = isRecording s) ->
  (forall s, recognition (f s) = recognition s) ->
  (forall s, isSpeaking (f s) = isSpeaking s) ->
  (forall s, currentUtterance (f s) = currentUtterance s) ->
  (forall s, log (f s) = log s) ->
  preserves Inv (write f).
Proof.
  intros. apply triple_write. intros s. apply invariant_frame; auto.
Qed.

Lemma emit_other (e : Effect) :
  e <> RecognitionStart -> preserves Inv (emit e).
Proof.
  intros He. apply triple_write. intros s [Hc Hl]. split.
  - exact Hc.
  - cbn [log set_log]. rewrite forallb_app, Hl. cbn.
    unfold start_in_order. cbn [what]. destruct e; try reflexivity. congruence.
Qed.

Lemma setTimeout_ok (a : TimerAction) (ms : nat) : preserves Inv (setTimeout a ms).
Proof. apply write_frame; reflexivity. Qed.


Create HintDb pres.

(** Splits a statement along its structure; the leaves are closed by the
    lemmas for the statements it calls. *)
Ltac pres :=
  repeat first
    [ match goal with |- forall _, _ => intro end
    | solve [auto with pres nocore]
    | match goal with
      | |- triple ?P ?m ?P => change (preserves P m)
      | |- preserves _ (bind _ _) => apply preserves_bind
      | |- preserves _ (ret _) => apply triple_ret
      | |- preserves _ skip => apply triple_skip
      | |- preserves _ throw => apply triple_throw
      | |- preserves _ (read _) => apply triple_read
      | |- preserves _ (try_catch _ _) => apply preserves_try_catch
      | |- preserves _ (try_finally _ _) => apply preserves_try_finally
      | |- preserves _ (setTimeout _ _) => apply setTimeout_ok
      | |- preserves _ (emit _) => apply emit_other; discriminate
      | |- preserves _ (write _) => apply write_frame; reflexivity
      | |- preserves _ (if ?b then _ else _) => destruct b
      | |- preserves _ (match ?x with _ => _ end) => destruct x
      end ].

Lemma showNotification_ok m t : preserves Inv (showNotification m t).
Proof. unfold showNotification; pres. Qed.

Lemma updateVoiceStatus_ok m t : preserves Inv (updateVoiceStatus m t).
Proof. unfold updateVoiceStatus; pres. Qed.

Lemma hideVoiceStatus_ok : preserves Inv hideVoiceStatus.
Proof. unfold hideVoiceStatus; pres. Qed.

Lemma showLoading_ok b : preserves Inv (showLoading b).
Proof. unfold showLoading; pres. Qed.

Lemma addMessage_ok r c : preserves Inv (addMessage r c).
Proof. unfold addMessage; pres. Qed.

Lemma recognition_stop_ok : preserves Inv recognition_stop.
Proof. unfold recognition_stop; pres. Qed.

Lemma speechSynthesis_cancel_ok : preserves Inv (speechSynthesis_cancel env).
Proof. unfold speechSynthesis_cancel; pres. Qed.

#[local] Hint Resolve showNotification_ok updateVoiceStatus_ok
  hideVoiceStatus_ok showLoading_ok addMessage_ok recognition_stop_ok
  speechSynthesis_cancel_ok : pres.

(** Clearing a flag cannot break consistency. *)
Lemma clear_isRecording : preserves Inv (write (set_isRecording false)).
Proof.
  apply triple_write. intros s [Hc Hl]. split; [| exact Hl].
  apply consistent_iff in Hc. apply consistent_iff.
  cbn. intuition congruence.
Qed.

Lemma clear_isSpeaking : preserves Inv (write (set_isSpeaking false)).
Proof.
  apply triple_write. intros s [Hc Hl]. split; [| exact Hl].
  apply consistent_iff in Hc. apply consistent_iff.
  cbn. intuition congruence.
Qed.

Lemma recognition_created : preserves Inv (write (set_recognition true)).
Proof.
  apply triple_write. intros s [Hc Hl]. split; [| exact Hl].
  apply consistent_iff in Hc. apply consistent_iff.
  cbn. intuition congruence.
Qed.

#[local] Hint Resolve clear_isRecording clear_isSpeaking recognition_created : pres.

Lemma stopRecording_ok : preserves Inv stopRecording.
Proof. unfold stopRecording; pres. Qed.

Lemma stopSpeaking_ok : preserves Inv (stopSpeaking env).
Proof. unfold stopSpeaking; pres. Qed.

Lemma initSpeechRecognition_ok : preserves Inv (initSpeechRecognition env).
Proof. unfold initSpeechRecognition; pres. Qed.

#[local] Hint Resolve stopRecording_ok stopSpeaking_ok initSpeechRecognition_ok : pres.

(** The one place the listener is started: both flags have just been read
    as clear. *)
Lemma startListening_ok : preserves Inv (startListening env).
Proof.
  unfold startListening.
  apply preserves_bind; [apply triple_read | intros r].
  apply preserves_bind; [destruct r; pres | intros _].
  apply triple_read_bind; intros sp. destruct sp.
  - eapply triple_weaken; [| apply emit_other; discriminate].
    intros s [H _]; exact H.
  - apply triple_read_bind; intros rc. destruct rc.
    + eapply triple_weaken; [| apply triple_skip]. intros s [[H _] _]; exact H.
    + intros s [[[Hc Hl] Hsp] Hrc]. unfold try_catch, recognition_start, bind, read.
      destruct (recognition s) eqn:Hr.
      * split; [exact Hc |].
        cbn [emit write snd log set_log]. rewrite forallb_app, Hl.
        cbn. unfold start_in_order, flags_of. cbn. rewrite Hsp, Hrc. reflexivity.
      * cbn [throw].
        refine (emit_other (ConsoleError _) _ s _); [discriminate | split; assumption].
Qed.

#[local] Hint Resolve startListening_ok : pres.

Lemma toggleVoiceInput_ok : preserves Inv (toggleVoiceInput env).
Proof. unfold toggleVoiceInput; pres. Qed.

Lemma updateSessionInfo_ok : preserves Inv updateSessionInfo.
Proof. unfold updateSessionInfo; pres. Qed.

#[local] Hint Resolve toggleVoiceInput_ok updateSessionInfo_ok : pres.

Lemma utterance_created (u : Utterance) :
  speechSynthesisSupported env = true ->
  preserves Inv (write (set_currentUtterance (Some u))).
Proof.
  intros Hss. apply triple_write. intros s [Hc Hl]. split; [| exact Hl].
  apply consistent_iff in Hc. apply consistent_iff.
  cbn. intuition congruence.
Qed.

Lemma speakText_ok t : preserves Inv (speakText env t).
Proof.
  unfold speakText. destruct (speechSynthesisSupported env) eqn:Hss; cbn [negb]; pres.
  apply utterance_created, Hss.
Qed.

#[local] Hint Resolve speakText_ok : pres.

Lemma toggleAutoSpeak_ok : preserves Inv (toggleAutoSpeak env).
Proof. unfold toggleAutoSpeak; pres. Qed.

Lemma toggleContinuousMode_ok : preserves Inv (toggleContinuousMode env).
Proof. unfold toggleContinuousMode; pres. Qed.

Lemma sendMessage_ok : preserves Inv sendMessage.
Proof. unfold sendMessage; pres. Qed.

Lemma sendMessage_resume_ok r : preserves Inv (sendMessage_resume env r).
Proof. unfold sendMessage_resume; pres. Qed.

Lemma startNewSession_ok : preserves Inv startNewSession.
Proof. unfold startNewSession; pres. Qed.

Lemma startNewSession_resume_ok r : preserves Inv (startNewSession_resume env r).
Proof. unfold startNewSession_resume; pres. Qed.

#[local] Hint Resolve toggleAutoSpeak_ok toggleContinuousMode_ok sendMessage_ok
  sendMessage_resume_ok startNewSession_ok startNewSession_resume_ok : pres.

Lemma window_onload_ok : preserves Inv window_onload.
Proof. unfold window_onload; pres. Qed.

Lemma window_onload_resume_ok r : preserves Inv (window_onload_resume env r).
Proof. unfold window_onload_resume; pres. Qed.

Lemma restartSession_ok : preserves Inv (restartSession env).
Proof. unfold restartSession; pres. Qed.

Lemma restartSession_resume_ok r : preserves Inv (restartSession_resume env r).
Proof. unfold restartSession_resume; pres. Qed.

Lemma addHistory_ok h : preserves Inv (addHistory h).
Proof. induction h as [| [u c] h IH]; cbn [addHistory]; pres. Qed.

#[local] Hint Resolve addHistory_ok : pres.

Lemma loadSession_ok id : preserves Inv (loadSession id).
Proof. unfold loadSession, closeHistory; pres. Qed.

Lemma loadSession_resume_ok r : preserves Inv (loadSession_resume env r).
Proof. unfold loadSession_resume; pres. Qed.

#[local] Hint Resolve window_onload_ok window_onload_resume_ok restartSession_ok
  restartSession_resume_ok loadSession_ok loadSession_resume_ok : pres.

Lemma recognition_onstart_ok :
  triple (fun s => Inv s /\ recognition s = true) (recognition_onstart env) Inv.
Proof.
  unfold recognition_onstart.
  apply triple_bind with (R := Inv); [| pres | auto].
  apply triple_write. intros s [[Hc Hl] Hr]. split; [| exact Hl].
  apply consistent_iff in Hc. apply consistent_iff.
  cbn in *. intuition congruence.
Qed.

Lemma recognition_onresult_ok t : preserves Inv (recognition_onresult t).
Proof. unfold recognition_onresult; pres. Qed.

Lemma recognition_onerror_ok e : preserves Inv (recognition_onerror e).
Proof. unfold recognition_onerror; pres. Qed.

Lemma recognition_onend_ok : preserves Inv recognition_onend.
Proof. unfold recognition_onend; pres. Qed.

Lemma utterance_onstart_ok :
  triple (fun s => Inv s /\ currentUtterance s <> None) utterance_onstart Inv.
Proof.
  unfold utterance_onstart.
  apply triple_bind with (R := Inv); [| pres | auto].
  apply triple_write. intros s [[Hc Hl] Hr]. split; [| exact Hl].
  apply consistent_iff in Hc. apply consistent_iff.
  cbn in *. intuition congruence.
Qed.

Lemma utterance_onend_ok : preserves Inv utterance_onend.
Proof. unfold utterance_onend; pres. Qed.

Lemma utterance_onerror_ok e : preserves Inv (utterance_onerror e).
Proof. unfold utterance_onerror; pres. Qed.

Lemma speakerIcon_onclick_ok c : preserves Inv (speakerIcon_onclick env c).
Proof. unfold speakerIcon_onclick; pres. Qed.

Lemma run_timer_ok a : preserves Inv (run_timer env a).
Proof. unfold run_timer; pres. Qed.

#[local] Hint Resolve recognition_onresult_ok recognition_onerror_ok
  recognition_onend_ok utterance_onend_ok utterance_onerror_ok
  speakerIcon_onclick_ok run_timer_ok : pres.

Lemma handle_ok ev : preserves Inv (handle env ev).
Proof.
  destruct ev; unfold handle; try solve [pres].
  - apply triple_read_bind; intros [|].
    + eapply triple_weaken; [| apply recognition_onstart_ok]. auto.
    + eapply triple_weaken; [| apply triple_skip]. intros s [H _]; exact H.
  - apply triple_read_bind; intros [u |].
    + eapply triple_weaken; [| apply utterance_onstart_ok].
      intros s [H E]; split; [exact H | congruence].
    + eapply triple_weaken; [| apply triple_skip]. intros s [H _]; exact H.
Qed.

End Preservation.

Lemma initial_invariant (env : Env) : invariant env initial.
Proof. split; [destruct env as [rs [] vs] |]; reflexivity. Qed.

Lemma run_invariant (env : Env) (evs : list Event) (s : State) :
  invariant env s -> invariant env (run env evs s).
Proof.
  revert s. induction evs as [| ev evs IH]; intros s H; cbn [run fold_left]; auto.
  apply IH, (handle_ok env ev s H).
Qed.

Lemma reachable_invariant (env : Env) (s : State) :
  reachable env s -> invariant env s.
Proof. intros [evs ->]. apply run_invariant, initial_invariant. Qed.

(* ================================================================== *)
(** * Listener and speaker never started together *)
(* ================================================================== *)

Lemma speakText_stops_listener (env : Env) (s : State) (t : option JsString) :
  speechSynthesisSupported env = true ->
  isRecording s = true ->
  recognition s = true ->
  In RecognitionStop (emitted s (exec (speakText env t) s)).
Proof.
  destruct s as [sid pd r rc a cu sp c mi ts ac an ar al lg]; destruct env as [rs ss vs].
  cbn [speechSynthesisSupported isRecording recognition]. intros -> -> ->.
  destruct sp, t; unfold_js; appended; cbn [In]; auto.
Qed.

(** C1, as amended: over every run of the event loop, each start of the
    listener was issued with the speaker flag and the listener flag both
    clear; and [speakText], finding the listener flag set, asks the
    listener to stop in the same task in which it schedules the utterance.
    (The utterance itself is handed over 100 ms later with no further
    check.) *)
Theorem listener_start_only_when_idle :
  (forall env evs e,
      In e (log (run env evs initial)) ->
      what e = RecognitionStart ->
      speaking (at_flags e) = false /\ recording (at_flags e) = false)
  /\ (forall env s t,
        speechSynthesisSupported env = true ->
        isRecording s = true ->
        recognition s = true ->
        In RecognitionStop (emitted s (exec (speakText env t) s))).
Proof.
  split.
  - intros env evs e Hin Hw.
    destruct (run_invariant env evs initial (initial_invariant env)) as [_ Hl].
    rewrite forallb_forall in Hl. specialize (Hl e Hin).
    unfold start_in_order in Hl. rewrite Hw in Hl.
    destruct (speaking (at_flags e)), (recording (at_flags e)); auto; discriminate.
  - exact speakText_stops_listener.
Qed.

Lemma listener_start_only_when_idle_witness :
  (speaking (mkFlags false false true true) = false
   /\ recording (mkFlags false false true true) = false)
  /\ In RecognitionStop
        (emitted while_listening
           (exec (speakText desktop (Some (js "Hello"))) while_listening)).
Proof.
  destruct listener_start_only_when_idle as [H1 H2]. split.
  - refine (H1 desktop
              [WindowLoad; StartSessionSettles greeting; ClickContinuousMode]
              (mkEntry (mkFlags false false true true) RecognitionStart)
              _ eq_refl).
    vm_compute. auto 10.
  - exact (H2 desktop while_listening (Some (js "Hello"))
              eq_refl eq_refl eq_refl).
Defined.

(** C1, as stated, fails: the microphone is on, the user replays the
    greeting, and 100 ms later the utterance is handed to the speaker
    while [isRecording] is still set. *)
Lemma utterance_handed_over_while_listening :
  exists u,
    In (mkEntry (mkFlags true false false false) (SynthSpeak u))
       (log (run desktop
               [ClickSpeakerIcon (Some (js "Hello")); TimerFires 1]
               while_listening)).
Proof. eexists. vm_compute. auto 20. Qed.

(* ================================================================== *)
(** * Listener errors *)
(* ================================================================== *)

(** C2, as amended: on ["no-speech"] in continuous mode the error callback
    shows no error and schedules nothing itself; the one restart is
    scheduled by the end callback that follows, when the speaker is idle.
    Outside continuous mode the error is shown on the status line. *)
Theorem no_speech_error (s : State) :
  let s' := exec (recognition_onerror (js "no-speech")) s in
  isRecording s' = false
  /\ scheduled s s' = []
  /\ (continuousMode s = true ->
      existsb visible_error (emitted s s') = false
      /\ scheduled s' (exec recognition_onend s')
         = if isSpeaking s then [] else [mkTimer 500 RestartAfterListenEnd])
  /\ (continuousMode s = false ->
      In (VoiceStatus (cross_mark ++ js " Error: " ++ js "no-speech") (js "error"))
         (emitted s s')).
Proof.
  destruct s as [sid pd r rc a cu sp c mi ts ac an ar al lg].
  cbn [continuousMode isSpeaking].
  assert (E1 : units_eqb (js "no-speech") (js "aborted") = false) by reflexivity.
  assert (E2 : units_eqb (js "no-speech") (js "no-speech") = true) by reflexivity.
  destruct c, sp; unfold_js; rewrite ?E1, ?E2; unfold_js; appended;
    repeat split; auto; try discriminate; intros _; cbn [In]; auto.
Qed.

Lemma no_speech_error_witness :
  (continuousMode continuous_listening = true
   /\ existsb visible_error
        (emitted continuous_listening
           (exec (recognition_onerror (js "no-speech")) continuous_listening))
      = false)
  /\ (continuousMode while_listening = false
      /\ In (VoiceStatus (cross_mark ++ js " Error: " ++ js "no-speech")
                (js "error"))
            (emitted while_listening
               (exec (recognition_onerror (js "no-speech")) while_listening))).
Proof.
  split; (split; [reflexivity |]).
  - pose proof (no_speech_error continuous_listening) as H.
    cbv zeta in H. destruct H as (_ & _ & H & _).
    exact (proj1 (H eq_refl)).
  - pose proof (no_speech_error while_listening) as H.
    cbv zeta in H. destruct H as (_ & _ & _ & H).
    exact (H eq_refl).
Defined.

(** C2, as stated, fails: in continuous mode the error callback for
    ["no-speech"] schedules no restart at all. *)
Lemma no_speech_schedules_no_restart :
  continuousMode continuous_listening = true
  /\ filter is_restart
       (scheduled continuous_listening
          (step desktop continuous_listening (ListenerError (js "no-speech"))))
     = [].
Proof. split; reflexivity. Qed.

(* ================================================================== *)
(** * Restart timers *)
(* ================================================================== *)

(** The three restarts that do check: when they start the listener,
    continuous mode is on and both flags are clear. *)
Lemma checked_restarts (env : Env) (s : State) (a : TimerAction) :
  a = RestartAfterListenError \/ a = RestartAfterListenEnd
  \/ a = RestartAfterSpeechEnd ->
  In RecognitionStart (emitted s (exec (run_timer env a) s)) ->
  continuousMode s = true /\ isSpeaking s = false /\ isRecording s = false.
Proof.
  destruct s as [sid pd r rc b cu sp c mi ts ac an ar al lg]; destruct env as [rs ss vs].
  cbn [continuousMode isSpeaking isRecording].
  intros [-> | [-> | ->]]; destruct c, sp, rc, r, rs; unfold_js; appended;
    cbn [In]; intuition discriminate.
Qed.

(** C3 fails on the code: the restart scheduled by the speaker's error
    callback starts the listener although continuous mode has been turned
    off in the meantime. *)
Theorem stale_restart_after_speech_error :
  continuousMode after_speech_error = false
  /\ nth_error (timers after_speech_error) 4
     = Some (mkTimer 1000 RestartAfterSpeechError)
  /\ emitted after_speech_error
       (step desktop after_speech_error (TimerFires 4))
     = [RecognitionStart].
Proof. repeat split. Qed.

(* ================================================================== *)
(** * Continuous mode *)
(* ================================================================== *)

(** C4, as amended: turning continuous mode off leaves the speaker flag
    clear at once; the listener flag is clear at once when the listener
    was idle, and otherwise the listener is asked to stop and the flag is
    clear after the task that runs its end callback, which schedules no
    restart. *)
Theorem toggleContinuousMode_off (env : Env) (s : State) :
  reachable env s ->
  continuousMode s = true ->
  let s' := exec (toggleContinuousMode env) s in
  continuousMode s' = false
  /\ isSpeaking s' = false
  /\ autoSpeak s' = autoSpeak s
  /\ if isRecording s
     then In RecognitionStop (emitted s s')
          /\ let s'' := step env s' ListenerEnd in
             isRecording s'' = false
             /\ isSpeaking s'' = false
             /\ scheduled s' s'' = []
     else isRecording s' = false.
Proof.
  intros Hr. apply reachable_invariant in Hr. destruct Hr as [Hc _].
  apply consistent_iff in Hc. revert Hc.
  destruct s as [sid pd r rc a cu sp c mi ts ac an ar al lg]; destruct env as [rs ss vs].
  cbn [continuousMode isSpeaking isRecording recognition currentUtterance
       speechSynthesisSupported autoSpeak].
  intros (Hrc & Hsp & _) ->.
  destruct rc; [rewrite (Hrc eq_refl) |];
    (destruct sp; [rewrite (Hsp eq_refl) | destruct ss]);
    unfold_js; appended; cbn [In]; auto 10.
Qed.

Lemma toggleContinuousMode_off_witness :
  continuousMode continuous_listening = true
  /\ isSpeaking (exec (toggleContinuousMode desktop) continuous_listening) = false.
Proof.
  split; [reflexivity |].
  assert (Hr : reachable desktop continuous_listening)
    by (exists [WindowLoad; StartSessionSettles greeting; ClickContinuousMode;
                ListenerStart]; vm_compute; reflexivity).
  pose proof (toggleContinuousMode_off desktop continuous_listening Hr eq_refl)
    as H.
  cbv zeta in H. destruct H as (_ & H & _). exact H.
Defined.

(** C4, as stated, fails: the listener flag is still set when the call
    returns, and still set one task later if that task is not the
    listener's end callback. *)
Lemma listener_flag_outlives_disabling :
  continuousMode continuous_listening = true
  /\ isRecording (step desktop continuous_listening ClickContinuousMode) = true
  /\ isRecording
       (run desktop [ClickContinuousMode; TimerFires 0] continuous_listening)
     = true.
Proof. repeat split. Qed.

(** C5, as amended: turning continuous mode on sets both flags and goes
    straight into [startListening], which starts the listener exactly when
    the speaker and the listener are idle and recognition is available. *)
Theorem toggleContinuousMode_on (env : Env) (s : State) :
  continuousMode s = false ->
  let s' := exec (toggleContinuousMode env) s in
  continuousMode s' = true
  /\ autoSpeak s' = true
  /\ (In RecognitionStart (emitted s s') <->
      isSpeaking s = false /\ isRecording s = false
      /\ recognition s || speechRecognitionSupported env = true).
Proof.
  destruct s as [sid pd r rc a cu sp c mi ts ac an ar al lg]; destruct env as [rs ss vs].
  cbn [continuousMode isSpeaking isRecording recognition
       speechRecognitionSupported]. intros ->.
  destruct a, sp, rc, r, rs; unfold_js; appended; cbn [In];
    (split; [reflexivity |]); (split; [reflexivity |]);
    intuition discriminate.
Qed.

Lemma toggleContinuousMode_on_witness :
  continuousMode loaded = false
  /\ autoSpeak (exec (toggleContinuousMode desktop) loaded) = true.
Proof.
  split; [reflexivity |].
  pose proof (toggleContinuousMode_on desktop loaded eq_refl) as H.
  cbv zeta in H. destruct H as (_ & H & _). exact H.
Defined.

(** C5, as stated, fails: while a reply is being spoken, turning
    continuous mode on issues no start to the listener. *)
Lemma no_listening_start_while_speaking :
  continuousMode while_speaking = false
  /\ ~ In RecognitionStart
        (emitted while_speaking
           (step desktop while_speaking ClickContinuousMode)).
Proof. split; [reflexivity |]. vm_compute. intuition discriminate. Qed.

(* ================================================================== *)
(** * Manual listening *)
(* ================================================================== *)

(** C8: with the speaker active and the listener idle, the microphone
    button issues no start to the listener and leaves both flags as they
    were. *)
Theorem toggleVoiceInput_while_speaking (env : Env) (s : State) :
  isSpeaking s = true ->
  isRecording s = false ->
  let s' := exec (toggleVoiceInput env) s in
  ~ In RecognitionStart (emitted s s')
  /\ isRecording s' = false
  /\ isSpeaking s' = true.
Proof.
  destruct s as [sid pd r rc a cu sp c mi ts ac an ar al lg]; destruct env as [rs ss vs].
  cbn [isSpeaking isRecording]. intros -> ->.
  destruct r, rs; unfold_js; appended; repeat split; not_in.
Qed.

Lemma toggleVoiceInput_while_speaking_witness :
  (isSpeaking while_speaking = true /\ isRecording while_speaking = false)
  /\ isRecording (exec (toggleVoiceInput desktop) while_speaking) = false.
Proof.
  split; [split; reflexivity |].
  pose proof (toggleVoiceInput_while_speaking desktop while_speaking
                eq_refl eq_refl) as H.
  cbv zeta in H. destruct H as (_ & H & _). exact H.
Defined.

(* ================================================================== *)
(** * The chat round trip *)
(* ================================================================== *)

(** A request that is rejected: when [fetch] or [response.json()]
    rejects, the fallback reply is added in place of a backend reply, no
    request or timer is issued, and [sessionId] and [patientData] are as
    before. *)
Lemma sendMessage_rejected (env : Env) (s : State) (reply : Reply ChatData) :
  reply = FetchRejected \/ (exists ok, reply = Response ok None) ->
  let s' := exec (sendMessage_resume env reply) s in
  emitted s s' =
    [ConsoleError (js "Error sending message:");
     Message doctor (Some fallback_reply);
     Loading false]
  /\ scheduled s s' = []
  /\ awaitingChat s' = awaitingChat s
  /\ sessionId s' = sessionId s
  /\ patientData s' = patientData s.
Proof.
  destruct s as [sid pd r rc a cu sp c mi ts ac an ar al lg].
  intros [-> | [ok ->]]; unfold_js; appended; repeat split.
Qed.

(** The sibling: [loadSession] looks at [response.ok] before it touches
    the session, so an error answer leaves [sessionId] and [patientData]
    alone. *)
Lemma loadSession_not_ok (env : Env) (s : State) (body : option LoadData) :
  let s' := exec (loadSession_resume env (Response false body)) s in
  sessionId s' = sessionId s /\ patientData s' = patientData s.
Proof.
  destruct s as [sid pd r rc a cu sp c mi ts ac an ar al lg].
  unfold_js; split; reflexivity.
Qed.

(** C7 fails on the code: [sendMessage] does not look at [response.ok].
    An error answer with a JSON body is read as a reply; its absent fields
    are stored before [updateSessionInfo] throws, so the fallback reply is
    shown with [sessionId] and [patientData] overwritten. *)
Theorem session_lost_on_error_answer :
  sessionId awaiting_answer = SidStr (js "s1")
  /\ patientData awaiting_answer = PdObject None
  /\ emitted awaiting_answer (step desktop awaiting_answer (ChatSettles not_found))
     = [ConsoleError (js "Error sending message:");
        Message doctor (Some fallback_reply);
        Loading false]
  /\ sessionId (step desktop awaiting_answer (ChatSettles not_found))
     = SidUndefined
  /\ patientData (step desktop awaiting_answer (ChatSettles not_found))
     = PdNullish.
Proof. repeat split. Qed.

(** C10: a reply that arrives is spoken when [autoSpeak] or
    [continuousMode] is set, and only then: the utterance with the cleaned
    reply is created and its hand-over scheduled, whatever [autoSpeak] is
    in continuous mode; and turning auto-speak off leaves continuous mode
    as it was. *)
Theorem reply_spoken (env : Env) (s : State) (ok : bool) (data : ChatData)
  (r : JsString) :
  reachable env s ->
  speechSynthesisSupported env = true ->
  response data = Some r ->
  patient_data data <> PdNullish ->
  let s' := exec (sendMessage_resume env (Response ok (Some data))) s in
  In (Message doctor (Some r)) (emitted s s')
  /\ (if autoSpeak s || continuousMode s
      then scheduled s s' = [mkTimer 100 SpeakCurrent]
           /\ exists u,
                currentUtterance s' = Some u
                /\ text u = cleanText r
                /\ emitted s' (exec (run_timer env SpeakCurrent) s')
                   = [SynthSpeak u]
      else scheduled s s' = []
           /\ currentUtterance s' = currentUtterance s)
  /\ continuousMode (exec (toggleAutoSpeak env) s) = continuousMode s.
Proof.
  intros Hr. apply reachable_invariant in Hr. destruct Hr as [Hc _].
  apply consistent_iff in Hc. revert Hc.
  destruct s as [sid pd rg rc a cu sp c mi ts ac an ar al lg]; destruct env as [rs ss vs].
  destruct data as [dsid dr [| dn]].
  1: cbn; intros; congruence.
  cbn [continuousMode isSpeaking isRecording recognition currentUtterance
       speechSynthesisSupported autoSpeak response patient_data].
  intros (Hrc & _) -> -> _.
  destruct rc; [rewrite (Hrc eq_refl) |];
    destruct a, c, sp; unfold_js; appended; cbn [In];
    repeat split; auto;
    try (eexists; repeat split).
Qed.

Lemma reply_spoken_witness :
  (autoSpeak continuous_without_auto = false
   /\ continuousMode continuous_without_auto = true)
  /\ scheduled continuous_without_auto
       (exec (sendMessage_resume desktop answer) continuous_without_auto)
     = [mkTimer 100 SpeakCurrent].
Proof.
  split; [split; reflexivity |].
  assert (Hr : reachable desktop continuous_without_auto)
    by (exists [WindowLoad; StartSessionSettles greeting; ClickContinuousMode;
                ListenerStart; ClickAutoSpeak]; vm_compute; reflexivity).
  assert (Hp : patient_data
                 (mkChatData (SidStr (js "s1")) (Some (js "Take rest"))
                    (PdObject None)) <> PdNullish) by discriminate.
  pose proof (reply_spoken desktop continuous_without_auto true
                (mkChatData (SidStr (js "s1")) (Some (js "Take rest"))
                   (PdObject None))
                (js "Take rest") Hr eq_refl eq_refl Hp) as H.
  cbv zeta in H. destruct H as (_ & H & _).
  change (autoSpeak continuous_without_auto
          || continuousMode continuous_without_auto) with true in H.
  exact (proj1 H).
Defined.

(* ================================================================== *)
(** * Voice selection *)
(* ================================================================== *)

Lemma preferred_spec (v : SpeechSynthesisVoice) :
  preferred v = us_or_gb v && preferred_name v.
Proof.
  unfold preferred, us_or_gb, preferred_name, preference_list. cbn [existsb].
  rewrite orb_false_r, !orb_assoc. reflexivity.
Qed.

Lemma find_first_such {A} (p : A -> bool) (l : list A) (v : A) :
  find p l = Some v -> first_such p l v.
Proof.
  induction l as [| x l IH]; cbn [find]; [discriminate |].
  destruct (p x) eqn:Hx.
  - intros [= ->]. exists [], l. repeat split; auto. intros y [].
  - intros H. destruct (IH H) as (l1 & l2 & -> & Hv & Hl1).
    exists (x :: l1), l2. repeat split; auto.
    intros y [<- | Hy]; auto.
Qed.

Lemma first_such_In {A} (p : A -> bool) (l : list A) (v : A) :
  first_such p l v -> In v l.
Proof. intros (l1 & l2 & -> & _). apply in_elt. Qed.

Lemma speakText_creates (env : Env) (s : State) (t : JsString) :
  reachable env s ->
  speechSynthesisSupported env = true ->
  exists u,
    currentUtterance (exec (speakText env (Some t)) s) = Some u
    /\ text u = cleanText t
    /\ (voices env <> [] -> voice u = preferredVoice (voices env)).
Proof.
  intros Hr. apply reachable_invariant in Hr. destruct Hr as [Hc _].
  apply consistent_iff in Hc. revert Hc.
  destruct s as [sid pd rg rc a cu sp c mi ts ac an ar al lg]; destruct env as [rs ss vs].
  cbn [isSpeaking isRecording recognition currentUtterance
       speechSynthesisSupported voices].
  intros (Hrc & _) ->.
  destruct rc; [rewrite (Hrc eq_refl) |]; destruct sp; unfold_js;
    eexists; (split; [reflexivity |]); (split; [reflexivity |]);
    destruct vs; cbn; congruence.
Qed.

(** C9, as amended: from a non-empty list the chosen voice is the first
    one whose language tag contains ["en-US"] or ["en-GB"] and whose name
    contains a name of the preference list; failing that, the first one
    whose language tag contains ["en"]; failing that, the first of the
    list; and it is the voice of the utterance [speakText] creates. *)
Theorem preferredVoice_order (env : Env) (s : State) (t : JsString) :
  reachable env s ->
  speechSynthesisSupported env = true ->
  voices env <> [] ->
  exists v,
    preferredVoice (voices env) = Some v
    /\ In v (voices env)
    /\ (first_such (fun x => us_or_gb x && preferred_name x) (voices env) v
        \/ ((forall x, In x (voices env) ->
               us_or_gb x && preferred_name x = false)
            /\ first_such english (voices env) v)
        \/ ((forall x, In x (voices env) ->
               us_or_gb x && preferred_name x = false)
            /\ (forall x, In x (voices env) -> english x = false)
            /\ hd_error (voices env) = Some v))
    /\ exists u,
         currentUtterance (exec (speakText env (Some t)) s) = Some u
         /\ voice u = Some v.
Proof.
  intros Hr Hss Hvs.
  destruct (speakText_creates env s t Hr Hss) as (u & Hu & _ & Hv).
  specialize (Hv Hvs).
  assert (Hfind : forall l, find preferred l
                            = find (fun x => us_or_gb x && preferred_name x) l).
  { induction l as [| x l IH]; cbn [find]; [reflexivity |].
    rewrite preferred_spec, IH. reflexivity. }
  revert Hv. unfold preferredVoice. rewrite Hfind.
  destruct (find (fun x => us_or_gb x && preferred_name x) (voices env))
    as [v |] eqn:H1; cbn [or_else].
  - intros Hv. exists v. apply find_first_such in H1.
    repeat split; eauto using first_such_In.
  - destruct (find english (voices env)) as [v |] eqn:H2; cbn [or_else].
    + intros Hv. exists v. apply find_first_such in H2.
      repeat split; eauto using first_such_In.
      right; left. split; auto. intros x Hx. apply (find_none _ _ H1 x Hx).
    + destruct (voices env) as [| v l] eqn:Hl; [congruence |]. cbn [hd_error].
      intros Hv. exists v. repeat split; eauto; [left; reflexivity |].
      right; right. repeat split.
      * intros x Hx. apply (find_none _ _ H1 x Hx).
      * intros x Hx. apply (find_none _ _ H2 x Hx).
Qed.

Lemma preferredVoice_order_witness :
  exists v, preferredVoice (voices desktop) = Some v /\ In v (voices desktop).
Proof.
  assert (Hr : reachable desktop loaded)
    by (exists [WindowLoad; StartSessionSettles greeting]; reflexivity).
  assert (Hvs : voices desktop <> []) by discriminate.
  destruct (preferredVoice_order desktop loaded (js "Hello") Hr eq_refl Hvs)
    as (v & H1 & H2 & _).
  exists v. split; assumption.
Defined.

(** C9, as stated, fails: Catherine is an English voice whose name
    contains "Microsoft", and the voice chosen is Alex, whose name
    contains none of the preferred names. *)
Lemma english_named_voice_passed_over :
  In catherine (voices desktop)
  /\ english catherine = true
  /\ preferred_name catherine = true
  /\ preferredVoice (voices desktop) = Some alex
  /\ preferred_name alex = false.
Proof. repeat split; auto. cbn. auto. Qed.

(* ================================================================== *)
(** * The global replace *)
(* ================================================================== *)

Module RegexFacts.
Import Regex.

Lemma replace_from_skip (m : Matcher) (rep : JsString) (k : nat) (s : JsString) :
  replace_from m rep k s = replace m rep (skipn k s).
Proof.
  revert k. induction s as [| c t IH]; intros [| k]; cbn [replace_from skipn];
    try reflexivity.
  apply IH.
Qed.

Lemma replace_nil (m : Matcher) (rep : JsString) : replace m rep [] = [].
Proof. reflexivity. Qed.

Lemma replace_cons (m : Matcher) (rep : JsString) (c : Z) (t : JsString) :
  replace m rep (c :: t) =
  match m (c :: t) with
  | Some (S k) => rep ++ replace m rep (skipn k t)
  | _ => c :: replace m rep t
  end.
Proof.
  unfold replace at 1. cbn [replace_from].
  destruct (m (c :: t)) as [[| k] |]; try reflexivity.
  rewrite replace_from_skip. reflexivity.
Qed.

(** A match [x] at the head of the text is replaced and the scan goes on
    behind it. *)
Lemma replace_match (m : Matcher) (rep x rest : JsString) :
  x <> [] ->
  m (x ++ rest) = Some (List.length x) ->
  replace m rep (x ++ rest) = rep ++ replace m rep rest.
Proof.
  destruct x as [| c x]; [congruence |]. intros _ H.
  cbn [app] in *. rewrite replace_cons, H. cbn [List.length].
  rewrite skipn_app, skipn_all, Nat.sub_diag. reflexivity.
Qed.

Lemma replace_copy (m : Matcher) (rep : JsString) (c : Z) (t : JsString) :
  m (c :: t) = None -> replace m rep (c :: t) = c :: replace m rep t.
Proof. intros H. rewrite replace_cons, H. reflexivity. Qed.

(** Nothing comes out of a replace that was not in the text or in the
    replacement. *)
Lemma replace_from_In (m : Matcher) (rep : JsString) (x : Z) (s : JsString) (k : nat) :
  In x (replace_from m rep k s) -> In x s \/ In x rep.
Proof.
  revert k. induction s as [| c t IH]; intros k; cbn [replace_from]; [tauto |].
  destruct k as [| k].
  - destruct (m (c :: t)) as [[| j] |]; cbn [In]; rewrite ?in_app_iff;
      intros H; try (destruct H as [H | H]; auto; apply IH in H; tauto).
  - intros H. apply IH in H. cbn [In]. tauto.
Qed.

Lemma run_length_repeat (u : Z) (n : nat) (s : JsString) :
  run_length u (repeat u n ++ s) = n + run_length u s.
Proof.
  induction n as [| n IH]; cbn [repeat app run_length]; [reflexivity |].
  rewrite Z.eqb_refl, IH. reflexivity.
Qed.

Lemma run_length_skipn (u : Z) (s : JsString) :
  run_length u (skipn (run_length u s) s) = 0.
Proof.
  induction s as [| c t IH]; cbn [run_length]; [reflexivity |].
  destruct (Z.eqb c u) eqn:E; cbn [skipn run_length]; [exact IH |].
  rewrite E. reflexivity.
Qed.

Lemma run_length_split (u : Z) (s : JsString) :
  s = repeat u (run_length u s) ++ skipn (run_length u s) s.
Proof.
  induction s as [| c t IH]; cbn [run_length]; [reflexivity |].
  destruct (Z.eqb_spec c u) as [-> | _]; cbn [repeat skipn app]; [| reflexivity].
  f_equal. exact IH.
Qed.

Lemma startsWith_repeat (u : Z) (n : nat) (s : JsString) :
  startsWith (repeat u n) s = Nat.leb n (run_length u s).
Proof.
  revert s. induction n as [| n IH]; intros s; cbn [repeat startsWith];
    [reflexivity |].
  destruct s as [| c t]; cbn [run_length]; [reflexivity |].
  rewrite Z.eqb_sym. destruct (Z.eqb c u); cbn [andb Nat.leb]; [apply IH | reflexivity].
Qed.

End RegexFacts.

(* ================================================================== *)
(** * The four passes of the cleaning *)
(* ================================================================== *)

Section Passes.
Import Regex RegexFacts.

(** ** Bars *)

Lemma filter_skip_run (u : Z) (t : JsString) :
  filter (fun c => negb (Z.eqb c u)) (skipn (run_length u t) t)
  = filter (fun c => negb (Z.eqb c u)) t.
Proof.
  induction t as [| c t IH]; cbn [run_length]; [reflexivity |].
  destruct (Z.eqb c u) eqn:E; cbn [skipn filter]; rewrite ?E; cbn [negb]; auto.
Qed.

Lemma strip_bars_filter (s : JsString) :
  strip_bars s = filter (fun c => negb (Z.eqb c HBAR)) s.
Proof.
  unfold strip_bars.
  remember (List.length s) as n eqn:Hn.
  assert (Hle : List.length s <= n) by lia. clear Hn.
  revert s Hle. induction n as [| n IH]; intros [| c t] Hle; cbn [List.length] in Hle;
    try reflexivity; try lia.
  rewrite replace_cons. unfold at_least. cbn [run_length filter].
  destruct (Z.eqb c HBAR) eqn:E; cbn [Nat.leb negb app].
  - rewrite IH, filter_skip_run; [reflexivity |].
    rewrite length_skipn. lia.
  - rewrite IH; [reflexivity | lia].
Qed.

Lemma strip_bars_clean (s : JsString) : ~ In HBAR (strip_bars s).
Proof.
  rewrite strip_bars_filter, filter_In, Z.eqb_refl. intros [_ H]; discriminate H.
Qed.

(** ** The bold marker *)

Lemma strip_bold_match (t : JsString) :
  strip_bold (STAR :: STAR :: t) = strip_bold t.
Proof.
  unfold strip_bold. rewrite replace_cons. unfold literal.
  cbn [startsWith]. rewrite Z.eqb_refl. reflexivity.
Qed.

Lemma strip_bold_copy (c : Z) (t : JsString) :
  startsWith [STAR; STAR] (c :: t) = false ->
  strip_bold (c :: t) = c :: strip_bold t.
Proof.
  intros H. unfold strip_bold. apply replace_copy. unfold literal. rewrite H.
  reflexivity.
Qed.

Lemma strip_bold_head (t : JsString) :
  startsWith [STAR] t = false -> startsWith [STAR] (strip_bold t) = false.
Proof.
  destruct t as [| d t]; [reflexivity |]. intros H.
  rewrite strip_bold_copy; [exact H |].
  cbn [startsWith] in *. rewrite andb_true_r in H. rewrite H. reflexivity.
Qed.

Lemma strip_bold_clean (s : JsString) :
  includes (strip_bold s) [STAR; STAR] = false.
Proof.
  remember (List.length s) as n eqn:Hn.
  assert (Hle : List.length s <= n) by lia. clear Hn.
  revert s Hle. induction n as [| n IH]; intros [| c t] Hle; cbn [List.length] in Hle;
    try reflexivity; try lia.
  destruct (startsWith [STAR; STAR] (c :: t)) eqn:E.
  - cbn [startsWith] in E. apply andb_prop in E. destruct E as [E1 E2].
    destruct t as [| d t]; [discriminate E2 |].
    rewrite andb_true_r in E2.
    apply Z.eqb_eq in E1, E2. subst c d.
    rewrite strip_bold_match. apply IH. cbn [List.length] in Hle. lia.
  - rewrite strip_bold_copy by exact E.
    cbn [includes]. rewrite IH by lia. rewrite orb_false_r.
    cbn [startsWith] in *.
    destruct (Z.eqb STAR c); cbn [andb] in *; [| reflexivity].
    apply strip_bold_head in E. exact E.
Qed.

(** ** Newlines *)

Lemma cap_run (k : nat) (t : JsString) :
  cap_newlines k t
  = repeat NL (Nat.min (run_length NL t) (2 - k))
    ++ cap_newlines 0 (skipn (run_length NL t) t).
Proof.
  revert k. induction t as [| u t IH]; intros k; cbn [cap_newlines run_length];
    [reflexivity |].
  destruct (Z.eqb_spec u NL) as [-> | Hu].
  - cbn [skipn]. destruct (Nat.ltb_spec k 2) as [Hk | Hk].
    + rewrite IH. replace (2 - k) with (S (2 - S k)) by lia.
      cbn [Nat.min repeat app]. reflexivity.
    + rewrite IH. replace (2 - k) with 0 by lia.
      rewrite !Nat.min_0_r. reflexivity.
  - cbn [Nat.min repeat app skipn cap_newlines].
    destruct (Z.eqb_spec u NL); [contradiction | reflexivity].
Qed.

(** The last [replace] is the one-pass form. *)
Lemma collapse_cap (s : JsString) : collapse_newlines s = cap_newlines 0 s.
Proof.
  unfold collapse_newlines.
  remember (List.length s) as n eqn:Hn.
  assert (Hle : List.length s <= n) by lia. clear Hn.
  revert s Hle. induction n as [| n IH]; intros [| c t] Hle; cbn [List.length] in Hle;
    try reflexivity; try lia.
  rewrite replace_cons. unfold at_least. cbn [run_length].
  change (cap_newlines 0 (c :: t))
    with (if Z.eqb c NL then c :: cap_newlines 1 t else c :: cap_newlines 0 t).
  destruct (Z.eqb_spec c NL) as [-> | Hc].
  - destruct (Nat.leb_spec 3 (S (run_length NL t))) as [H3 | H3].
    + rewrite IH by (rewrite length_skipn; lia).
      rewrite (cap_run 1 t). replace (Nat.min (run_length NL t) (2 - 1)) with 1 by lia.
      reflexivity.
    + rewrite IH by lia. rewrite (cap_run 1 t), (cap_run 0 t).
      replace (Nat.min (run_length NL t) (2 - 1)) with (run_length NL t) by lia.
      replace (Nat.min (run_length NL t) (2 - 0)) with (run_length NL t) by lia.
      reflexivity.
  - cbn [Nat.leb]. rewrite IH by lia. reflexivity.
Qed.

Lemma includes_cons (c : Z) (s p : JsString) :
  includes (c :: s) p = startsWith p (c :: s) || includes s p.
Proof. reflexivity. Qed.

Lemma cap_no_triple (k : nat) (s : JsString) :
  k <= 2 ->
  run_length NL (cap_newlines k s) <= 2 - k
  /\ includes (cap_newlines k s) [NL; NL; NL] = false.
Proof.
  revert k. induction s as [| u t IH]; intros k Hk; cbn [cap_newlines].
  - split; [cbn; lia | reflexivity].
  - destruct (Z.eqb_spec u NL) as [-> | Hu].
    + destruct (Nat.ltb_spec k 2) as [Hk2 | Hk2].
      * destruct (IH (S k) ltac:(lia)) as [Hr Hi].
        rewrite includes_cons, Hi, orb_false_r.
        change [NL; NL; NL] with (repeat NL 3). rewrite startsWith_repeat.
        cbn [run_length]. rewrite Z.eqb_refl. split; [lia |].
        apply Nat.leb_gt. lia.
      * apply IH. lia.
    + destruct (IH 0 ltac:(lia)) as [Hr Hi].
      rewrite includes_cons, Hi, orb_false_r.
      change [NL; NL; NL] with (repeat NL 3). rewrite startsWith_repeat.
      cbn [run_length]. destruct (Z.eqb_spec u NL); [contradiction |].
      split; [lia | reflexivity].
Qed.

Lemma cap_head_star (t : JsString) :
  startsWith [STAR] (cap_newlines 0 t) = startsWith [STAR] t.
Proof.
  destruct t as [| u t]; [reflexivity |]. cbn [cap_newlines Nat.ltb Nat.leb].
  destruct (Z.eqb u NL); reflexivity.
Qed.

Lemma cap_keeps_bold_free (k : nat) (s : JsString) :
  includes s [STAR; STAR] = false ->
  includes (cap_newlines k s) [STAR; STAR] = false.
Proof.
  revert k. induction s as [| u t IH]; intros k; [intros _; reflexivity |].
  rewrite includes_cons. intros H. apply orb_false_elim in H. destruct H as [H1 H2].
  cbn [cap_newlines]. destruct (Z.eqb_spec u NL) as [-> | Hu].
  - destruct (Nat.ltb k 2); [| apply IH, H2].
    rewrite includes_cons, (IH _ H2), orb_false_r. reflexivity.
  - rewrite includes_cons, (IH _ H2), orb_false_r.
    cbn [startsWith] in *. destruct (Z.eqb STAR u); cbn [andb] in *; [| reflexivity].
    change (startsWith [STAR] (cap_newlines 0 t) = false).
    rewrite cap_head_star. exact H1.
Qed.

End Passes.

(* ================================================================== *)
(** * Newlines are barriers for the first three passes *)
(* ================================================================== *)

Section Barriers.
Import Regex RegexFacts.

Lemma replace_barrier (m : Matcher) (rep a b : JsString) :
  barrier m ->
  replace m rep (a ++ NL :: b) = replace m rep a ++ NL :: replace m rep b.
Proof.
  intros [B1 B2 B3].
  remember (List.length a) as n eqn:Hn.
  assert (Hle : List.length a <= n) by lia. clear Hn.
  revert a Hle. induction n as [| n IH]; intros [| c x] Hle;
    cbn [List.length] in Hle; try lia.
  - cbn [app]. rewrite replace_cons.
    destruct (m (NL :: b)) as [[| k] |] eqn:E; try reflexivity.
    exfalso. exact (B1 _ _ E).
  - cbn [app]. rewrite replace_cons.
    destruct (m (NL :: b)) as [[| k] |] eqn:E; try reflexivity.
    exfalso. exact (B1 _ _ E).
  - cbn [app]. rewrite !replace_cons, B2.
    destruct (m (c :: x)) as [[| k] |] eqn:E; cbn [app].
    + rewrite IH by lia. reflexivity.
    + apply B3 in E. cbn [List.length] in E.
      rewrite skipn_app. replace (k - List.length x) with 0 by lia.
      cbn [skipn]. rewrite IH by (rewrite length_skipn; lia).
      rewrite app_assoc. reflexivity.
    + rewrite IH by lia. reflexivity.
Qed.

Lemma replace_barrier_run (m : Matcher) (rep : JsString) (n : nat) (a b : JsString) :
  barrier m ->
  replace m rep (a ++ repeat NL (S n) ++ b)
  = replace m rep a ++ repeat NL (S n) ++ replace m rep b.
Proof.
  intros B. revert a. induction n as [| n IH]; intros a.
  - apply replace_barrier, B.
  - change (repeat NL (S (S n)) ++ b) with (NL :: (repeat NL (S n) ++ b)).
    rewrite replace_barrier by exact B.
    specialize (IH []). cbn [app] in IH. rewrite IH, replace_nil. reflexivity.
Qed.

Lemma startsWith_stop (lit x y : JsString) :
  no_newline lit = true ->
  startsWith lit (x ++ NL :: y) = startsWith lit x.
Proof.
  revert x. induction lit as [| l lit IH]; intros x H; [reflexivity |].
  cbn [no_newline forallb] in H. apply andb_prop in H. destruct H as [Hl H].
  destruct x as [| c x]; cbn [app startsWith].
  - apply negb_true_iff in Hl. rewrite Hl. reflexivity.
  - rewrite (IH x H). reflexivity.
Qed.

Lemma startsWith_fit (lit x : JsString) :
  startsWith lit x = true -> List.length lit <= List.length x.
Proof.
  revert x. induction lit as [| l lit IH]; intros x; cbn [List.length]; [lia |].
  destruct x as [| c x]; cbn [startsWith List.length]; [discriminate |].
  intros H. apply andb_prop in H. destruct H as [_ H]. apply IH in H. lia.
Qed.

Lemma alternation_barrier (alts : list JsString) :
  forallb (fun a => no_newline a && negb (Nat.eqb (List.length a) 0)) alts = true ->
  barrier (alternation alts).
Proof.
  induction alts as [| a alts IH]; cbn [forallb]; intros H.
  - split; cbn [alternation]; intros; discriminate || reflexivity.
  - apply andb_prop in H. destruct H as [Ha H].
    apply andb_prop in Ha. destruct Ha as [Ha Hn].
    destruct (IH H) as [B1 B2 B3]. split; cbn [alternation].
    + intros y k. destruct a as [| l a]; [discriminate Hn |].
      cbn [no_newline forallb] in Ha. apply andb_prop in Ha. destruct Ha as [Hl _].
      apply negb_true_iff in Hl. cbn [startsWith]. rewrite Hl. apply B1.
    + intros c x y. rewrite B2.
      change (c :: x ++ NL :: y) with ((c :: x) ++ NL :: y).
      rewrite (startsWith_stop _ _ _ Ha). reflexivity.
    + intros x k. destruct (startsWith a x) eqn:E.
      * intros [= <-]. apply startsWith_fit, E.
      * apply B3.
Qed.

Lemma literal_barrier (lit : JsString) :
  no_newline lit && negb (Nat.eqb (List.length lit) 0) = true ->
  barrier (literal lit).
Proof.
  intros H.
  assert (B : barrier (alternation [lit]))
    by (apply alternation_barrier; cbn [forallb]; rewrite H; reflexivity).
  destruct B as [B1 B2 B3].
  assert (E : forall s, literal lit s = alternation [lit] s) by reflexivity.
  split; intros; rewrite ?E in *; auto.
Qed.

Lemma run_length_stop (u : Z) (x y : JsString) :
  Z.eqb NL u = false ->
  run_length u (x ++ NL :: y) = run_length u x.
Proof.
  intros H. induction x as [| c x IH]; cbn [app run_length].
  - rewrite H. reflexivity.
  - rewrite IH. reflexivity.
Qed.

Lemma run_length_fit (u : Z) (x : JsString) : run_length u x <= List.length x.
Proof.
  induction x as [| c x IH]; cbn [run_length List.length]; [lia |].
  destruct (Z.eqb c u); lia.
Qed.

Lemma at_least_barrier (n : nat) (u : Z) :
  Z.eqb NL u = false -> barrier (at_least n u).
Proof.
  intros H. split; unfold at_least.
  - intros y k. cbn [run_length]. rewrite H.
    destruct (Nat.leb n 0); discriminate.
  - intros c x y. change (c :: x ++ NL :: y) with ((c :: x) ++ NL :: y).
    rewrite run_length_stop by exact H. reflexivity.
  - intros x k. destruct (Nat.leb n (run_length u x)); [| discriminate].
    intros [= <-]. apply run_length_fit.
Qed.

(** The first three passes, across a run of newlines. *)
Lemma strip_across_newlines (n : nat) (a b : JsString) :
  strip_bold (strip_bars (strip_emoji (a ++ repeat NL (S n) ++ b)))
  = strip_bold (strip_bars (strip_emoji a))
    ++ repeat NL (S n)
    ++ strip_bold (strip_bars (strip_emoji b)).
Proof.
  unfold strip_emoji, strip_bars, strip_bold.
  rewrite replace_barrier_run by (apply alternation_barrier; reflexivity).
  rewrite replace_barrier_run by (apply at_least_barrier; reflexivity).
  rewrite replace_barrier_run by (apply literal_barrier; reflexivity).
  reflexivity.
Qed.

End Barriers.

(* ================================================================== *)
(** * Where a long run of newlines was *)
(* ================================================================== *)

Section Runs.
Import Regex RegexFacts.

Lemma cap_app (k : nat) (a x : JsString) :
  cap_newlines k (a ++ x)
  = cap_newlines k a ++ cap_newlines (seen_after k a) x.
Proof.
  revert k. induction a as [| u a IH]; intros k; cbn [app cap_newlines seen_after];
    [reflexivity |].
  destruct (Z.eqb u NL); [destruct (Nat.ltb k 2) |]; rewrite IH; reflexivity.
Qed.

Lemma seen_after_app (k : nat) (a x : JsString) :
  seen_after k (a ++ x) = seen_after (seen_after k a) x.
Proof.
  revert k. induction a as [| u a IH]; intros k; cbn [app seen_after];
    [reflexivity |].
  destruct (Z.eqb u NL); apply IH.
Qed.

Lemma seen_after_le (k : nat) (a : JsString) : k <= 2 -> seen_after k a <= 2.
Proof.
  revert k. induction a as [| u a IH]; intros k Hk; cbn [seen_after]; [exact Hk |].
  destruct (Z.eqb u NL); [| apply IH; lia].
  destruct (Nat.ltb_spec k 2); apply IH; lia.
Qed.

Lemma rev_repeat_self (u : Z) (n : nat) : rev (repeat u n) = repeat u n.
Proof.
  induction n as [| n IH]; [reflexivity |].
  cbn [repeat rev]. rewrite IH. symmetry. apply repeat_cons.
Qed.

(** A text is what is left of it without its trailing run, and that run. *)
Lemma strip_trailing_split (u : Z) (y : JsString) :
  y = strip_trailing u y ++ repeat u (run_length u (rev y)).
Proof.
  unfold strip_trailing, strip_leading.
  rewrite <- (rev_repeat_self u (run_length u (rev y))), <- rev_app_distr.
  rewrite <- run_length_split. symmetry. apply rev_involutive.
Qed.

Lemma trailing_snoc (u c : Z) (y : JsString) :
  run_length u (rev (y ++ [c]))
  = if Z.eqb c u then S (run_length u (rev y)) else 0.
Proof. rewrite rev_app_distr. reflexivity. Qed.

(** The count kept by [cap_newlines] is the length of the run its output
    ends with. *)
Lemma cap_trailing (k : nat) (a : JsString) :
  k <= 2 ->
  run_length NL (rev (repeat NL k ++ cap_newlines k a)) = seen_after k a.
Proof.
  intros Hk. induction a as [| c a IH] using rev_ind.
  - cbn [cap_newlines seen_after]. rewrite app_nil_r, rev_repeat_self.
    rewrite <- (app_nil_r (repeat NL k)), run_length_repeat. cbn. lia.
  - rewrite cap_app, seen_after_app, app_assoc.
    pose proof (seen_after_le k a Hk) as Hj.
    cbn [cap_newlines seen_after].
    destruct (Z.eqb c NL) eqn:E.
    + destruct (Nat.ltb_spec (seen_after k a) 2).
      * rewrite trailing_snoc, E, IH. reflexivity.
      * rewrite app_nil_r. exact IH.
    + rewrite trailing_snoc, E. reflexivity.
Qed.

Lemma cap_leading (b : JsString) :
  strip_leading NL (cap_newlines 0 b) = cap_newlines 0 (strip_leading NL b).
Proof.
  unfold strip_leading at 1. rewrite (cap_run 0 b) at 1 2.
  fold (strip_leading NL b).
  assert (H0 : run_length NL (cap_newlines 0 (strip_leading NL b)) = 0).
  { unfold strip_leading. pose proof (run_length_skipn NL b) as H.
    destruct (skipn (run_length NL b) b) as [| u t]; [reflexivity |].
    cbn [run_length cap_newlines] in *.
    destruct (Z.eqb u NL) eqn:E; [discriminate H |].
    cbn [run_length]. rewrite E. reflexivity. }
  rewrite run_length_repeat, H0, Nat.add_0_r.
  rewrite skipn_app, repeat_length, Nat.sub_diag, skipn_all2 by (rewrite repeat_length; lia).
  reflexivity.
Qed.

Lemma cap_long_run (n : nat) (a b : JsString) :
  cap_newlines 0 (a ++ repeat NL (3 + n) ++ b)
  = strip_trailing NL (cap_newlines 0 a)
    ++ [NL; NL]
    ++ strip_leading NL (cap_newlines 0 b).
Proof.
  rewrite cap_app.
  pose proof (seen_after_le 0 a ltac:(lia)) as Hj.
  rewrite (cap_run (seen_after 0 a)), run_length_repeat.
  replace (Nat.min (3 + n + run_length NL b) (2 - seen_after 0 a))
    with (2 - seen_after 0 a) by lia.
  rewrite skipn_app, repeat_length.
  replace (3 + n + run_length NL b - (3 + n)) with (run_length NL b) by lia.
  rewrite skipn_all2 by (rewrite repeat_length; lia).
  cbn [app]. fold (strip_leading NL b). rewrite <- cap_leading.
  rewrite (strip_trailing_split NL (cap_newlines 0 a)) at 1.
  pose proof (cap_trailing 0 a ltac:(lia)) as Ht. cbn [repeat app] in Ht.
  rewrite Ht.
  rewrite <- app_assoc. f_equal. rewrite app_assoc, <- repeat_app.
  replace (seen_after 0 a + (2 - seen_after 0 a)) with 2 by lia.
  reflexivity.
Qed.

End Runs.

(* ================================================================== *)
(** * Texts cut into plain pieces and decorative items *)
(* ================================================================== *)

Section Pieces.
Import Regex RegexFacts.

Lemma flatten_cons (x : Piece) (ps : list Piece) :
  flatten (x :: ps) = content x ++ flatten ps.
Proof. reflexivity. Qed.

Lemma plain_unit_differs (u x : Z) :
  plain_unit u = true -> In x decorative_units -> Z.eqb x u = false.
Proof.
  unfold plain_unit. intros H Hx. apply negb_true_iff in H.
  destruct (Z.eqb_spec x u) as [-> | _]; [| reflexivity].
  rewrite <- H. symmetry. apply existsb_exists. exists u. split; [exact Hx |].
  apply Z.eqb_refl.
Qed.

Lemma emoji_units (e : JsString) (x : Z) :
  In e emoji -> In x e -> In x decorative_units.
Proof.
  intros He Hx. unfold decorative_units. apply in_or_app. left.
  apply in_concat. exists e. split; assumption.
Qed.

Lemma alternation_none (alts : list JsString) (u : Z) (r : JsString) :
  forallb (fun a => negb (startsWith [u] a)) alts = true ->
  forallb (fun a => negb (Nat.eqb (List.length a) 0)) alts = true ->
  alternation alts (u :: r) = None.
Proof.
  induction alts as [| a alts IH]; cbn [forallb alternation]; [reflexivity |].
  intros H1 H2. apply andb_prop in H1, H2. destruct H1 as [Ha H1], H2 as [Hn H2].
  destruct a as [| a0 a]; [discriminate Hn |].
  cbn [startsWith] in *. rewrite andb_true_r in Ha. apply negb_true_iff in Ha.
  rewrite Z.eqb_sym, Ha. cbn [andb]. apply IH; assumption.
Qed.

Lemma strip_emoji_copy (x r : JsString) :
  forallb starts_no_emoji x = true ->
  strip_emoji (x ++ r) = x ++ strip_emoji r.
Proof.
  unfold strip_emoji. induction x as [| u x IH]; cbn [forallb app]; [reflexivity |].
  intros H. apply andb_prop in H. destruct H as [Hu H].
  rewrite replace_copy, IH by (exact H || (apply alternation_none; [exact Hu | reflexivity])).
  reflexivity.
Qed.

Lemma plain_starts_no_emoji (u : Z) :
  plain_unit u = true -> starts_no_emoji u = true.
Proof.
  intros H. unfold starts_no_emoji. apply forallb_forall. intros a Ha.
  destruct a as [| a0 a]; [reflexivity |].
  cbn [startsWith]. rewrite andb_true_r, Z.eqb_sym.
  rewrite (plain_unit_differs u a0 H); [reflexivity |].
  apply (emoji_units (a0 :: a)); [exact Ha | left; reflexivity].
Qed.

Lemma plain_forallb (f : Z -> bool) (p : JsString) :
  (forall u, plain_unit u = true -> f u = true) ->
  forallb plain_unit p = true -> forallb f p = true.
Proof.
  intros Hf H. apply forallb_forall. intros u Hu. apply Hf.
  rewrite forallb_forall in H. apply H, Hu.
Qed.

(** What follows a piece never starts with a variation selector. *)
Lemma flatten_head (ps : list Piece) :
  Forall well_cut ps -> startsWith [VS16] (flatten ps) = false.
Proof.
  induction 1 as [| x ps Hx _ IH]; [reflexivity |].
  rewrite flatten_cons. destruct x as [p | e | n |]; cbn [content well_cut] in *.
  - destruct p as [| u p]; [exact IH |].
    cbn [forallb] in Hx. apply andb_prop in Hx. destruct Hx as [Hu _].
    cbn [app startsWith]. rewrite (plain_unit_differs u VS16 Hu); [reflexivity |].
    vm_compute. auto 30.
  - cbn [emoji In] in Hx.
    repeat (destruct Hx as [<- | Hx]; [reflexivity |]). destruct Hx.
  - reflexivity.
  - reflexivity.
Qed.

(** At the head of the text an alternative matches as itself. *)
Lemma alternation_emoji (e r : JsString) :
  In e emoji ->
  startsWith [VS16] r = false ->
  alternation emoji (e ++ r) = Some (List.length e).
Proof.
  intros He Hr. cbn [emoji In] in He.
  repeat (destruct He as [<- | He]; [try reflexivity |]); [| destruct He].
  unfold emoji. cbn [alternation].
  change (startsWith stethoscope (warning ++ r)) with false.
  change (startsWith light_bulb (warning ++ r)) with false.
  change (startsWith pill (warning ++ r)) with false.
  change (startsWith green_salad (warning ++ r)) with false.
  change (startsWith warning_vs (warning ++ r)) with (true && startsWith [VS16] r).
  rewrite Hr. reflexivity.
Qed.

Lemma strip_emoji_pieces (ps : list Piece) :
  Forall well_cut ps ->
  strip_emoji (flatten ps) = flatten (filter (fun x => negb (is_emoji x)) ps).
Proof.
  induction 1 as [| x ps Hx Hps IH]; [reflexivity |].
  rewrite flatten_cons.
  destruct x as [p | e | n |]; cbn [content well_cut filter is_emoji negb] in *.
  - rewrite strip_emoji_copy, IH; [reflexivity |].
    apply plain_forallb; [apply plain_starts_no_emoji | exact Hx].
  - unfold strip_emoji in *. rewrite replace_match, IH; [reflexivity | |].
    + intros ->. cbn [emoji In] in Hx. intuition discriminate.
    + apply alternation_emoji; [exact Hx | apply flatten_head, Hps].
  - rewrite strip_emoji_copy, IH; [reflexivity |].
    apply forallb_forall. intros u Hu. apply repeat_spec in Hu. subst u. reflexivity.
  - rewrite strip_emoji_copy, IH; reflexivity.
Qed.

Lemma filter_all {A} (f : A -> bool) (l : list A) :
  forallb f l = true -> filter f l = l.
Proof.
  induction l as [| x l IH]; cbn [forallb filter]; [reflexivity |].
  intros H. apply andb_prop in H. destruct H as [-> H]. rewrite IH by exact H.
  reflexivity.
Qed.

Lemma strip_bars_pieces (ps : list Piece) :
  Forall well_cut ps ->
  strip_bars (flatten ps) = flatten (filter (fun x => negb (is_bars x)) ps).
Proof.
  rewrite strip_bars_filter.
  induction 1 as [| x ps Hx Hps IH]; [reflexivity |].
  rewrite flatten_cons, filter_app, IH.
  destruct x as [p | e | n |]; cbn [content well_cut filter is_bars negb] in *;
    rewrite ?flatten_cons; cbn [content]; f_equal.
  - apply filter_all. revert Hx. apply plain_forallb. intros u Hu.
    rewrite Z.eqb_sym, (plain_unit_differs u HBAR Hu); [reflexivity |].
    vm_compute. auto 30.
  - cbn [emoji In] in Hx.
    repeat (destruct Hx as [<- | Hx]; [reflexivity |]). destruct Hx.
  - induction n as [| n IHn]; [reflexivity |]. exact IHn.
Qed.

Lemma strip_bold_copy_units (x r : JsString) :
  forallb (fun u => negb (Z.eqb STAR u)) x = true ->
  strip_bold (x ++ r) = x ++ strip_bold r.
Proof.
  induction x as [| u x IH]; cbn [forallb app]; [reflexivity |].
  intros H. apply andb_prop in H. destruct H as [Hu H].
  apply negb_true_iff in Hu.
  rewrite strip_bold_copy, IH by (exact H || (cbn [startsWith]; rewrite Hu; reflexivity)).
  reflexivity.
Qed.

Lemma strip_bold_pieces (ps : list Piece) :
  Forall well_cut ps ->
  strip_bold (flatten ps) = flatten (filter (fun x => negb (is_bold x)) ps).
Proof.
  induction 1 as [| x ps Hx Hps IH]; [reflexivity |].
  rewrite flatten_cons.
  destruct x as [p | e | n |]; cbn [content well_cut filter is_bold negb] in *;
    rewrite ?flatten_cons; cbn [content].
  - rewrite strip_bold_copy_units, IH; [reflexivity |].
    revert Hx. apply plain_forallb. intros u Hu.
    rewrite (plain_unit_differs u STAR Hu); [reflexivity |].
    vm_compute. auto 30.
  - rewrite strip_bold_copy_units, IH; [reflexivity |].
    cbn [emoji In] in Hx.
    repeat (destruct Hx as [<- | Hx]; [reflexivity |]). destruct Hx.
  - rewrite strip_bold_copy_units, IH; [reflexivity |].
    apply forallb_forall. intros u Hu. apply repeat_spec in Hu. subst u. reflexivity.
  - cbn [app]. rewrite strip_bold_match, IH. reflexivity.
Qed.

Lemma well_cut_filter (f : Piece -> bool) (ps : list Piece) :
  Forall well_cut ps -> Forall well_cut (filter f ps).
Proof.
  intros H. apply Forall_forall. intros x Hx. apply filter_In in Hx.
  rewrite Forall_forall in H. apply H, Hx.
Qed.

Lemma plain_pieces (ps : list Piece) :
  filter (fun x => negb (is_bold x))
    (filter (fun x => negb (is_bars x))
       (filter (fun x => negb (is_emoji x)) ps))
  = filter is_plain ps.
Proof.
  induction ps as [| [p | e | n |] ps IH]; cbn; rewrite ?IH; reflexivity.
Qed.

Lemma cleanText_pieces (ps : list Piece) :
  Forall well_cut ps ->
  cleanText (flatten ps) = collapse_newlines (flatten (filter is_plain ps)).
Proof.
  intros H. unfold cleanText.
  rewrite strip_emoji_pieces by exact H.
  rewrite strip_bars_pieces by (apply well_cut_filter, H).
  rewrite strip_bold_pieces by (apply well_cut_filter, well_cut_filter, H).
  rewrite plain_pieces. reflexivity.
Qed.

End Pieces.

(* ================================================================== *)
(** * Trimming *)
(* ================================================================== *)

Lemma trimStart_blank (s : JsString) :
  forallb is_js_space s = true -> trimStart s = [].
Proof.
  induction s as [| u t IH]; cbn [forallb trimStart]; [reflexivity |].
  intros H. apply andb_prop in H. destruct H as [-> H]. apply IH, H.
Qed.

Lemma trimStart_head (s : JsString) (u : Z) (r : JsString) :
  trimStart s = u :: r -> is_js_space u = false.
Proof.
  induction s as [| c t IH]; cbn [trimStart]; [discriminate |].
  destruct (is_js_space c) eqn:E; [exact IH |].
  intros [= <- _]. exact E.
Qed.

Lemma trimStart_suffix (s : JsString) :
  exists a, s = a ++ trimStart s.
Proof.
  induction s as [| c t [a IH]]; cbn [trimStart]; [exists []; reflexivity |].
  destruct (is_js_space c).
  - exists (c :: a). cbn [app]. f_equal. exact IH.
  - exists []. reflexivity.
Qed.

Lemma trimStart_nonblank (s : JsString) :
  forallb is_js_space s = false -> trimStart s <> [].
Proof.
  induction s as [| c t IH]; cbn [forallb trimStart]; [discriminate |].
  destruct (is_js_space c); cbn [andb]; [exact IH | discriminate].
Qed.

Lemma trim_blank (s : JsString) :
  forallb is_js_space s = true -> trim s = [].
Proof. intros H. unfold trim. rewrite (trimStart_blank s H). reflexivity. Qed.

(** What [trim] leaves of a text that is not blank is not empty and has
    no white space at either end. *)
Lemma trim_nonblank (s : JsString) :
  forallb is_js_space s = false ->
  exists u r,
    trim s = u :: r
    /\ is_js_space u = false
    /\ is_js_space (last (u :: r) u) = false.
Proof.
  intros H. unfold trim.
  destruct (trimStart s) as [| y0 y] eqn:Ey; [exfalso; exact (trimStart_nonblank s H Ey) |].
  pose proof (trimStart_head s y0 y Ey) as Hy0.
  assert (Hz : trimStart (rev (y0 :: y)) <> []).
  { apply trimStart_nonblank. apply not_true_is_false. intros Hall.
    rewrite forallb_forall in Hall.
    rewrite (Hall y0) in Hy0; [discriminate |].
    apply in_rev. rewrite rev_involutive. left; reflexivity. }
  destruct (trimStart (rev (y0 :: y))) as [| z0 z] eqn:Ez; [congruence |].
  pose proof (trimStart_head _ z0 z Ez) as Hz0.
  destruct (trimStart_suffix (rev (y0 :: y))) as [a Ha]. rewrite Ez in Ha.
  assert (Hy : y0 :: y = rev (z0 :: z) ++ rev a).
  { rewrite <- rev_app_distr, <- Ha, rev_involutive. reflexivity. }
  destruct (rev (z0 :: z)) as [| u r] eqn:Er.
  { apply (f_equal (@List.length Z)) in Er. rewrite length_rev in Er. discriminate Er. }
  exists u, r. split; [reflexivity |]. split.
  - cbn [app] in Hy. injection Hy as -> _. exact Hy0.
  - assert (El : last (u :: r) u = z0).
    { rewrite <- Er. cbn [rev]. apply last_last. }
    rewrite El. exact Hz0.
Qed.

(* ================================================================== *)
(** * Sending, listening and speaking, case by case *)
(* ================================================================== *)

(** X1: pressing the microphone button while the listener flag is set
    issues exactly one stop to the listener and nothing else; the flag
    stays set until the listener calls back. *)
Theorem microphone_button_while_listening (env : Env) (s : State) :
  reachable env s ->
  isRecording s = true ->
  let s' := exec (toggleVoiceInput env) s in
  returns (toggleVoiceInput env) s
  /\ emitted s s' = [RecognitionStop]
  /\ scheduled s s' = []
  /\ flags_of s' = flags_of s.
Proof.
  intros Hr. apply reachable_invariant in Hr. destruct Hr as [Hc _].
  apply consistent_iff in Hc. revert Hc. unfold returns.
  destruct s as [sid pd r rc a cu sp c mi ts ac an ar al lg]; destruct env as [rs ss vs].
  cbn [isRecording recognition]. intros (Hrc & _) ->. rewrite (Hrc eq_refl).
  unfold_js; appended; repeat split.
Qed.

Lemma microphone_button_while_listening_witness :
  isRecording while_listening = true
  /\ emitted while_listening (exec (toggleVoiceInput desktop) while_listening)
     = [RecognitionStop].
Proof.
  split; [reflexivity |].
  assert (Hr : reachable desktop while_listening)
    by (exists [WindowLoad; StartSessionSettles greeting; ClickVoiceButton;
                ListenerStart]; vm_compute; reflexivity).
  pose proof (microphone_button_while_listening desktop while_listening
                Hr eq_refl) as H.
  cbv zeta in H. destruct H as (_ & H & _). exact H.
Defined.

(** X2: a message box that is empty or holds white space only sends
    nothing: [sendMessage] returns with the state as it was. *)
Theorem blank_message_not_sent (s : State) :
  forallb is_js_space (messageInput s) = true ->
  sendMessage s = (Normal tt, s).
Proof.
  intros H. unfold sendMessage, bind, read. rewrite (trim_blank _ H). reflexivity.
Qed.

Lemma blank_message_not_sent_witness :
  sendMessage (set_messageInput (js "   ") loaded)
  = (Normal tt, set_messageInput (js "   ") loaded).
Proof.
  apply (blank_message_not_sent (set_messageInput (js "   ") loaded)).
  reflexivity.
Defined.

(** X3: a message box that is not blank sends its trimmed text: the text
    shown and the text posted are the same, not empty, and without white
    space at either end; the session id posted is the current one; the
    box is cleared and one request is pending. *)
Theorem message_sent_trimmed (s : State) :
  forallb is_js_space (messageInput s) = false ->
  let s' := exec sendMessage s in
  exists u r,
    trim (messageInput s) = u :: r
    /\ is_js_space u = false
    /\ is_js_space (last (u :: r) u) = false
    /\ emitted s s' =
         [Message user (Some (u :: r)); Loading true;
          Fetch (js "/chat") (sessionId s) (Some (u :: r))]
    /\ messageInput s' = []
    /\ awaitingChat s' = S (awaitingChat s)
    /\ flags_of s' = flags_of s.
Proof.
  intros H. destruct (trim_nonblank _ H) as (u & r & Ht & Hu & Hl).
  exists u, r. split; [exact Ht |]. split; [exact Hu |]. split; [exact Hl |].
  revert Ht. clear.
  destruct s as [sid pd rg rc a cu sp c mi ts ac an ar al lg].
  cbn [messageInput]. intros Ht.
  unfold exec, sendMessage, bind, read. cbn [messageInput]. rewrite Ht.
  unfold_js; appended; repeat split.
Qed.

Lemma message_sent_trimmed_witness :
  exists u r,
    trim (js " hi ") = u :: r
    /\ emitted (set_messageInput (js " hi ") loaded)
         (exec sendMessage (set_messageInput (js " hi ") loaded))
       = [Message user (Some (u :: r)); Loading true;
          Fetch (js "/chat") (SidStr (js "s1")) (Some (u :: r))].
Proof.
  assert (Hb : forallb is_js_space
                 (messageInput (set_messageInput (js " hi ") loaded)) = false)
    by reflexivity.
  destruct (message_sent_trimmed (set_messageInput (js " hi ") loaded) Hb)
    as (u & r & H1 & _ & _ & H4 & _).
  exists u, r. split; [exact H1 | exact H4].
Defined.

(** X4: when the listener starts while the speaker flag is set, the
    speech is cancelled: after [recognition.onstart] the listener flag is
    set and the speaker flag is clear. *)
Theorem listening_start_cuts_speech (env : Env) (s : State) :
  reachable env s ->
  recognition s = true ->
  let s' := step env s ListenerStart in
  isRecording s' = true
  /\ isSpeaking s' = false
  /\ (In SynthCancel (emitted s s') <-> isSpeaking s = true).
Proof.
  intros Hr. apply reachable_invariant in Hr. destruct Hr as [Hc _].
  apply consistent_iff in Hc. revert Hc.
  destruct s as [sid pd r rc a cu sp c mi ts ac an ar al lg]; destruct env as [rs ss vs].
  cbn [isSpeaking recognition speechSynthesisSupported]. intros (_ & Hsp & _) ->.
  destruct sp; [rewrite (Hsp eq_refl) |]; unfold_js; appended; cbn [In];
    repeat split; auto; intuition discriminate.
Qed.

Lemma listening_start_cuts_speech_witness :
  recognition while_speaking = true
  /\ isSpeaking (step desktop while_speaking ListenerStart) = false.
Proof.
  split; [reflexivity |].
  assert (Hr : reachable desktop while_speaking)
    by (exists [WindowLoad; StartSessionSettles greeting; ClickAutoSpeak;
                TypeMessage (js "hi"); Submit; ChatSettles answer;
                TimerFires 2; SpeakerStart]; vm_compute; reflexivity).
  pose proof (listening_start_cuts_speech desktop while_speaking Hr eq_refl) as H.
  cbv zeta in H. destruct H as (_ & H & _). exact H.
Defined.

(** X5: a listener error other than ["aborted"] and ["no-speech"] is
    shown on the status line and clears the listener flag; in continuous
    mode it schedules one restart after a second, outside it none. *)
Theorem listener_error_shown (s : State) (e : JsString) :
  units_eqb e (js "aborted") = false ->
  units_eqb e (js "no-speech") = false ->
  let s' := exec (recognition_onerror e) s in
  isRecording s' = false
  /\ emitted s s' =
       [ConsoleError (js "Speech recognition error:");
        VoiceStatus (cross_mark ++ js " Error: " ++ e) (js "error");
        RecordingIndicators false]
  /\ scheduled s s' =
       if continuousMode s then [mkTimer 1000 RestartAfterListenError] else [].
Proof.
  intros E1 E2.
  destruct s as [sid pd r rc a cu sp c mi ts ac an ar al lg].
  cbn [continuousMode].
  destruct c; unfold_js; rewrite ?E1, ?E2; unfold_js; appended; repeat split.
Qed.

Lemma listener_error_shown_witness :
  scheduled continuous_listening
    (exec (recognition_onerror (js "network")) continuous_listening)
  = [mkTimer 1000 RestartAfterListenError].
Proof.
  pose proof (listener_error_shown continuous_listening (js "network")
                eq_refl eq_refl) as H.
  cbv zeta in H. destruct H as (_ & _ & H). exact H.
Defined.

(** X6: a speaker error always clears the speaker flag; it is notified
    unless it is ["interrupted"]; and a restart of the listener is
    scheduled exactly in continuous mode with the listener flag clear. *)
Theorem speech_error_handled (s : State) (e : JsString) :
  let s' := exec (utterance_onerror e) s in
  isSpeaking s' = false
  /\ existsb visible_error (emitted s s') = negb (units_eqb e (js "interrupted"))
  /\ filter is_restart (scheduled s s') =
       if continuousMode s && negb (isRecording s)
       then [mkTimer 1000 RestartAfterSpeechError] else [].
Proof.
  destruct s as [sid pd r rc a cu sp c mi ts ac an ar al lg].
  cbn [continuousMode isRecording].
  destruct (units_eqb e (js "interrupted")) eqn:E, c, rc;
    unfold_js; rewrite ?E; unfold_js; appended; repeat split.
Qed.

(** X7: without speech synthesis [speakText] speaks nothing: it logs and
    notifies, and leaves the flags, the utterance and the listener as
    they were. *)
Theorem speakText_without_synthesis (env : Env) (s : State) (t : option JsString) :
  speechSynthesisSupported env = false ->
  let s' := exec (speakText env t) s in
  emitted s s' =
    [ConsoleError (js "Speech synthesis not supported");
     Notification (js "Text-to-speech not supported in this browser") (js "error")]
  /\ scheduled s s' = [mkTimer 3000 HideNotification]
  /\ currentUtterance s' = currentUtterance s
  /\ flags_of s' = flags_of s.
Proof.
  destruct s as [sid pd r rc a cu sp c mi ts ac an ar al lg]; destruct env as [rs ss vs].
  cbn [speechSynthesisSupported]. intros ->.
  unfold_js; appended; repeat split.
Qed.

Lemma speakText_without_synthesis_witness :
  currentUtterance (exec (speakText silent (Some (js "Hello"))) silent_loaded)
  = currentUtterance silent_loaded.
Proof.
  pose proof (speakText_without_synthesis silent silent_loaded
                (Some (js "Hello")) eq_refl) as H.
  cbv zeta in H. destruct H as (_ & _ & H & _). exact H.
Defined.

(* ================================================================== *)
(** * Timers that fire *)
(* ================================================================== *)

Lemma nth_error_length_app {A} (l r : list A) (x : A) :
  nth_error (l ++ x :: r) (List.length l) = Some x.
Proof. induction l; simpl; auto. Qed.

Lemma remove_nth_length_app {A} (l r : list A) (x : A) :
  remove_nth (List.length l) (l ++ x :: r) = l ++ r.
Proof. induction l; simpl; [| rewrite IHl]; reflexivity. Qed.

(** The timer a statement has just appended is found at the old length
    of the queue, and is gone once it has fired. *)
Ltac fire :=
  rewrite <- ?app_assoc; cbn [app];
  rewrite ?nth_error_length_app; cbv beta iota;
  rewrite ?remove_nth_length_app, ?app_nil_r; cbn [action].

Lemma skipn_length_plus {A} (l r : list A) (n : nat) :
  skipn (List.length l + n) (l ++ r) = skipn n r.
Proof. induction l; simpl; auto. Qed.

(** What the second of two statements appended. *)
Ltac appended_later :=
  rewrite <- ?app_assoc; cbn [app];
  rewrite ?length_app, ?skipn_length_plus;
  cbn [List.length skipn map what action delay at_flags
       recording speaking auto continuous].

(** X8: what becomes of a transcript.  The result callback puts it in
    the message box and schedules one timer.  In continuous mode the
    timer fires after half a second and sends it: the trimmed transcript
    is shown and posted for the current session, and the box is empty
    again.  Outside continuous mode the timer only hides the status line
    after two seconds: the transcript stays in the box and nothing is
    sent. *)
Theorem transcript_sent_in_continuous_mode_only (env : Env) (s : State) (t : JsString) :
  recognition s = true ->
  forallb is_js_space t = false ->
  let s1 := step env s (ListenerResult t) in
  let s2 := step env s1 (TimerFires (List.length (timers s))) in
  messageInput s1 = t
  /\ timers s2 = timers s
  /\ if continuousMode s
     then scheduled s s1 = [mkTimer 500 SendTranscript]
          /\ emitted s1 s2 =
               [Message user (Some (trim t)); Loading true;
                Fetch (js "/chat") (sessionId s) (Some (trim t))]
          /\ messageInput s2 = []
          /\ awaitingChat s2 = S (awaitingChat s)
     else scheduled s s1 = [mkTimer 2000 HideStatus]
          /\ emitted s1 s2 = [VoiceStatusHidden]
          /\ messageInput s2 = t
          /\ awaitingChat s2 = awaitingChat s.
Proof.
  intros Hr Hb. destruct (trim_nonblank _ Hb) as (u & r & Ht & _).
  revert Hr.
  destruct s as [sid pd rg rc a cu sp c mi ts ac an ar al lg].
  cbn [recognition continuousMode timers sessionId awaitingChat].
  intros ->. rewrite Ht. cbv zeta.
  destruct c; unfold_js; fire; unfold_js; rewrite ?Ht;
    appended; appended_later; repeat split.
Qed.

Lemma transcript_sent_in_continuous_mode_only_witness :
  messageInput
    (step desktop (step desktop while_listening (ListenerResult (js "I cough")))
       (TimerFires (List.length (timers while_listening))))
  = js "I cough"
  /\ messageInput
       (step desktop
          (step desktop continuous_listening (ListenerResult (js "I cough")))
          (TimerFires (List.length (timers continuous_listening))))
     = [].
Proof.
  pose proof (transcript_sent_in_continuous_mode_only desktop while_listening
                (js "I cough") eq_refl eq_refl) as H1.
  pose proof (transcript_sent_in_continuous_mode_only desktop continuous_listening
                (js "I cough") eq_refl eq_refl) as H2.
  cbv zeta in H1, H2.
  destruct H1 as (_ & _ & H1). destruct H2 as (_ & _ & H2).
  split.
  - change (continuousMode while_listening) with false in H1.
    destruct H1 as (_ & _ & H1 & _). exact H1.
  - change (continuousMode continuous_listening) with true in H2.
    destruct H2 as (_ & _ & H2 & _). exact H2.
Defined.



(** X10: when a restart timer fires, the listener is started exactly if
    a listener exists or can be created, both flags are clear and, for
    every restart but the one scheduled by the speaker's error callback,
    continuous mode is still on. *)
Theorem restart_timer_starts (env : Env) (s : State) (t : Timer) :
  is_restart t = true ->
  In RecognitionStart (emitted s (exec (run_timer env (action t)) s))
  <-> (recognition s || speechRecognitionSupported env)
      && negb (isSpeaking s) && negb (isRecording s)
      && (continuousMode s || negb (checks_mode (action t))) = true.
Proof.
  destruct s as [sid pd r rc b cu sp c mi ts ac an ar al lg]; destruct env as [rs ss vs].
  destruct t as [d a].
  cbn [continuousMode isSpeaking isRecording recognition action
       speechRecognitionSupported].
  destruct a; cbn; try discriminate; intros _;
    destruct c, sp, rc, r, rs; unfold_js; appended; cbn [In];
    intuition discriminate.
Qed.

Lemma restart_timer_starts_witness :
  In RecognitionStart
    (emitted restart_pending
       (exec (run_timer desktop RestartAfterListenEnd) restart_pending)).
Proof.
  apply (restart_timer_starts desktop restart_pending
           (mkTimer 500 RestartAfterListenEnd) eq_refl).
  reflexivity.
Defined.

(** X11: two calls of [speakText] before the first timer fires: both
    timers hand over the utterance of the second call, and the text of
    the first call is never spoken. *)
Theorem second_utterance_spoken_twice (env : Env) (s : State) (t1 t2 : JsString) :
  speechSynthesisSupported env = true ->
  reachable env s ->
  let s2 := exec (speakText env (Some t2)) (exec (speakText env (Some t1)) s) in
  let s3 := step env s2 (TimerFires (List.length (timers s))) in
  let s4 := step env s3 (TimerFires (List.length (timers s))) in
  exists u,
    currentUtterance s2 = Some u
    /\ text u = cleanText t2
    /\ scheduled s s2 = [mkTimer 100 SpeakCurrent; mkTimer 100 SpeakCurrent]
    /\ emitted s2 s3 = [SynthSpeak u]
    /\ emitted s3 s4 = [SynthSpeak u]
    /\ timers s4 = timers s.
Proof.
  intros Hs Hr. apply reachable_invariant in Hr. destruct Hr as [Hc _].
  apply consistent_iff in Hc. revert Hs Hc.
  destruct s as [sid pd r rc b cu sp c mi ts ac an ar al lg]; destruct env as [rs ss vs].
  cbn [speechSynthesisSupported isRecording recognition isSpeaking timers].
  intros -> (Hrc & _). cbv zeta. eexists.
  destruct rc; [rewrite (Hrc eq_refl) |]; destruct sp;
    unfold_js; fire; unfold_js; fire; unfold_js;
    appended; appended_later; repeat split.
Qed.

Lemma second_utterance_spoken_twice_witness :
  exists u,
    text u = cleanText (js "second")
    /\ emitted
         (exec (speakText desktop (Some (js "second")))
            (exec (speakText desktop (Some (js "first"))) loaded))
         (step desktop
            (exec (speakText desktop (Some (js "second")))
               (exec (speakText desktop (Some (js "first"))) loaded))
            (TimerFires (List.length (timers loaded))))
       = [SynthSpeak u].
Proof.
  assert (Hr : reachable desktop loaded)
    by (exists [WindowLoad; StartSessionSettles greeting]; vm_compute; reflexivity).
  destruct (second_utterance_spoken_twice desktop loaded (js "first")
              (js "second") eq_refl Hr) as (u & _ & H2 & _ & H4 & _).
  exists u. split; [exact H2 | exact H4].
Defined.

(* ================================================================== *)
(** * Modes switched on and off *)
(* ================================================================== *)

(** X12: continuous mode switched on and off before the listener has
    called back: the listener was idle, so it is started by the first
    click and, its flag still clear, not stopped by the second. *)
Theorem quick_toggle_leaves_listener_started (env : Env) (s : State) :
  continuousMode s = false ->
  isRecording s = false ->
  isSpeaking s = false ->
  recognition s = true ->
  speechSynthesisSupported env = true ->
  let s' := run env [ClickContinuousMode; ClickContinuousMode] s in
  In RecognitionStart (emitted s s')
  /\ ~ In RecognitionStop (emitted s s')
  /\ continuousMode s' = false.
Proof.
  destruct s as [sid pd r rc b cu sp c mi ts ac an ar al lg]; destruct env as [rs ss vs].
  cbn [continuousMode isRecording isSpeaking recognition
       speechSynthesisSupported run fold_left].
  intros -> -> -> -> ->. cbv zeta.
  destruct b; unfold_js; appended; cbn [In];
    (split; [| split]); auto 10; try not_in.
Qed.

Lemma quick_toggle_leaves_listener_started_witness :
  In RecognitionStart
    (emitted loaded
       (run desktop [ClickContinuousMode; ClickContinuousMode] loaded)).
Proof.
  pose proof (quick_toggle_leaves_listener_started desktop loaded
                eq_refl eq_refl eq_refl eq_refl eq_refl) as H.
  cbv zeta in H. destruct H as (H & _). exact H.
Defined.

(* ================================================================== *)
(** * A browser without speech synthesis *)
(* ================================================================== *)

(** X13: without speech synthesis no other session can be had.  A
    confirmed restart throws at [stopSpeaking]: the chat is not cleared
    and no request is issued.  A stored session that arrives is read,
    [stopSpeaking] throws inside the [try], and the failure is reported.
    Either way the session stays as it is. *)
Theorem no_other_session_without_synthesis (env : Env) (s : State) (data : LoadData) :
  speechSynthesisSupported env = false ->
  let s1 := exec (restartSession env) s in
  let s2 := exec (loadSession_resume env (Response true (Some data))) s in
  ~ returns (restartSession env) s
  /\ ~ In ChatCleared (emitted s s1)
  /\ (forall p i m, ~ In (Fetch p i m) (emitted s s1))
  /\ awaitingRestart s1 = awaitingRestart s
  /\ sessionId s1 = sessionId s
  /\ patientData s1 = patientData s
  /\ emitted s s2 =
       [ConsoleError (js "Error loading session:");
        Notification (js "Failed to load session. Check the ID and try again.")
          (js "error");
        Loading false]
  /\ sessionId s2 = sessionId s
  /\ patientData s2 = patientData s.
Proof.
  unfold returns.
  destruct s as [sid pd r rc b cu sp c mi ts ac an ar al lg]; destruct env as [rs ss vs].
  cbn [speechSynthesisSupported]. intros ->. cbv zeta.
  destruct c, rc, r; unfold_js; appended; cbn [In];
    repeat split; auto; try not_in; intros p i m; not_in.
Qed.

Lemma no_other_session_without_synthesis_witness :
  sessionId (exec (restartSession silent) silent_loaded) = sessionId silent_loaded
  /\ sessionId (exec (loadSession_resume silent (Response true (Some stored)))
                  silent_loaded)
     = sessionId silent_loaded.
Proof.
  pose proof (no_other_session_without_synthesis silent silent_loaded stored
                eq_refl) as H.
  cbv zeta in H. destruct H as (_ & _ & _ & _ & H5 & _ & _ & H8 & _).
  split; [exact H5 | exact H8].
Defined.

(** X14: switching auto-speak off clears the flag and leaves continuous
    mode alone.  With speech synthesis the speech is cancelled and the
    change is notified; without it [stopSpeaking] throws once the
    indicator is set, and the notification is never shown. *)
Theorem auto_speak_off (env : Env) (s : State) :
  autoSpeak s = true ->
  let s' := exec (toggleAutoSpeak env) s in
  autoSpeak s' = false
  /\ continuousMode s' = continuousMode s
  /\ if speechSynthesisSupported env
     then returns (toggleAutoSpeak env) s
          /\ isSpeaking s' = false
          /\ emitted s s' =
               [AutoSpeakIndicator false; SynthCancel;
                Notification (js "Auto-speak disabled") (js "info")]
     else ~ returns (toggleAutoSpeak env) s
          /\ isSpeaking s' = isSpeaking s
          /\ emitted s s' = [AutoSpeakIndicator false].
Proof.
  unfold returns.
  destruct s as [sid pd r rc b cu sp c mi ts ac an ar al lg]; destruct env as [rs ss vs].
  cbn [speechSynthesisSupported autoSpeak continuousMode isSpeaking].
  intros ->. cbv zeta.
  destruct ss; unfold_js; appended; repeat split; auto.
Qed.

Lemma auto_speak_off_witness :
  autoSpeak (exec (toggleAutoSpeak desktop) continuous_listening) = false
  /\ continuousMode (exec (toggleAutoSpeak desktop) continuous_listening) = true.
Proof.
  pose proof (auto_speak_off desktop continuous_listening eq_refl) as H.
  cbv zeta in H. destruct H as (H1 & H2 & _).
  split; [exact H1 | exact H2].
Defined.

(** X15: while the speaker flag is set, a click on the speaker icon of
    any message stops the speech and speaks nothing: no utterance is
    created and no timer is scheduled. *)
Theorem speaker_icon_stops_speech (env : Env) (s : State) (content : option JsString) :
  speechSynthesisSupported env = true ->
  isSpeaking s = true ->
  let s' := step env s (ClickSpeakerIcon content) in
  isSpeaking s' = false
  /\ emitted s s' = [SynthCancel; SpeakerIcon false]
  /\ scheduled s s' = []
  /\ currentUtterance s' = currentUtterance s.
Proof.
  destruct s as [sid pd r rc b cu sp c mi ts ac an ar al lg]; destruct env as [rs ss vs].
  cbn [speechSynthesisSupported isSpeaking currentUtterance].
  intros -> ->. cbv zeta.
  unfold_js; appended; repeat split.
Qed.

Lemma speaker_icon_stops_speech_witness :
  emitted while_speaking
    (step desktop while_speaking (ClickSpeakerIcon (Some (js "Hello"))))
  = [SynthCancel; SpeakerIcon false].
Proof.
  pose proof (speaker_icon_stops_speech desktop while_speaking
                (Some (js "Hello")) eq_refl eq_refl) as H.
  cbv zeta in H. destruct H as (_ & H & _). exact H.
Defined.

(* ================================================================== *)
(** * Leaving the page *)
(* ================================================================== *)

(** X16: on leaving the page the speech is cancelled and the speaker
    flag cleared; the listener is asked to stop exactly in continuous
    mode with a listener created, whether or not it is listening; the
    listener flag is not touched. *)
Theorem beforeunload_stops (env : Env) (s : State) :
  speechSynthesisSupported env = true ->
  let s' := exec (window_beforeunload env) s in
  returns (window_beforeunload env) s
  /\ isSpeaking s' = false
  /\ isRecording s' = isRecording s
  /\ emitted s s' =
       SynthCancel ::
       (if continuousMode s && recognition s then [RecognitionStop] else []).
Proof.
  unfold returns, window_beforeunload.
  destruct s as [sid pd r rc b cu sp c mi ts ac an ar al lg]; destruct env as [rs ss vs].
  cbn [speechSynthesisSupported continuousMode recognition isRecording].
  intros ->. cbv zeta.
  destruct c, r; unfold_js; appended; repeat split.
Qed.

Lemma beforeunload_stops_witness :
  emitted continuous_listening
    (exec (window_beforeunload desktop) continuous_listening)
  = [SynthCancel; RecognitionStop].
Proof.
  pose proof (beforeunload_stops desktop continuous_listening eq_refl) as H.
  cbv zeta in H. destruct H as (_ & _ & _ & H). exact H.
Defined.

(* ================================================================== *)
(** * Sessions opened, restarted and started *)
(* ================================================================== *)

Lemma set_log_self (s : State) : set_log (log s ++ []) s = s.
Proof. destruct s. unfold set_log. cbn. rewrite app_nil_r. reflexivity. Qed.

(** [addHistory] adds one message per entry, in order, and never throws. *)
Lemma addHistory_spec (h : list (bool * option JsString)) (s : State) :
  addHistory h s =
    (Normal tt,
     set_log (log s ++ map (fun m => mkEntry (flags_of s) (history_message m)) h) s).
Proof.
  revert s. induction h as [| [is_user content] rest IH]; intros s.
  - cbn [addHistory map]. rewrite set_log_self. reflexivity.
  - cbn [addHistory]. unfold bind, addMessage, emit, write. rewrite IH.
    destruct s. unfold set_log, flags_of, history_message.
    cbn. rewrite <- app_assoc. reflexivity.
Qed.

(** X17: a reply on which [loadSession] fails early, a rejected request,
    a status outside the 200s or a body that is not JSON, is reported and
    leaves the session, the chat and the speech as they are. *)
Theorem load_failure_leaves_session (env : Env) (s : State) (reply : Reply LoadData) :
  load_fails reply = true ->
  let s' := exec (loadSession_resume env reply) s in
  returns (loadSession_resume env reply) s
  /\ emitted s s' =
       [ConsoleError (js "Error loading session:");
        Notification (js "Failed to load session. Check the ID and try again.")
          (js "error");
        Loading false]
  /\ sessionId s' = sessionId s
  /\ patientData s' = patientData s
  /\ flags_of s' = flags_of s.
Proof.
  unfold returns.
  destruct s as [sid pd r rc b cu sp c mi ts ac an ar al lg].
  destruct reply as [| [|] [data |]]; cbn [load_fails]; try discriminate;
    intros _; unfold_js; appended; repeat split.
Qed.

Lemma load_failure_leaves_session_witness :
  sessionId (exec (loadSession_resume desktop (Response false (Some stored))) loaded)
  = sessionId loaded.
Proof.
  pose proof (load_failure_leaves_session desktop loaded
                (Response false (Some stored)) eq_refl) as H.
  cbv zeta in H. destruct H as (_ & _ & H & _). exact H.
Defined.

(** X18: a stored session that is opened replaces the current one: the
    speech is cancelled, the chat is cleared and then shows the stored
    history, entry by entry in its order, none of it is spoken, and the
    modes stay as they are. *)
Theorem session_loaded (env : Env) (s : State) (data : LoadData)
    (h : list (bool * option JsString)) (n : option JsString) :
  speechSynthesisSupported env = true ->
  loaded_patient_data data = PdObject n ->
  history data = Some h ->
  let s' := exec (loadSession_resume env (Response true (Some data))) s in
  returns (loadSession_resume env (Response true (Some data))) s
  /\ sessionId s' = loaded_session_id data
  /\ patientData s' = PdObject n
  /\ isSpeaking s' = false
  /\ (exists info,
        emitted s s' =
          [SynthCancel; ChatCleared; SessionInfo info (loaded_session_id data)]
          ++ map history_message h
          ++ [Notification (js "Consultation loaded successfully!") (js "success");
              Loading false])
  /\ scheduled s s' = [mkTimer 3000 HideNotification]
  /\ autoSpeak s' = autoSpeak s
  /\ continuousMode s' = continuousMode s.
Proof.
  unfold returns.
  destruct s as [sid pd r rc b cu sp c mi ts ac an ar al lg]; destruct env as [rs ss vs].
  destruct data as [lsid lpd lh].
  cbn [speechSynthesisSupported loaded_patient_data history loaded_session_id
       autoSpeak continuousMode].
  intros -> -> ->. cbv zeta.
  unfold_js. rewrite !addHistory_spec. unfold_js.
  rewrite <- !app_assoc. cbn [app]. rewrite ?skipn_length_app, ?skipn_length_self.
  cbn [map what]. rewrite !map_app, !map_map. cbn [map what].
  repeat split. eexists. reflexivity.
Qed.

Lemma session_loaded_witness :
  sessionId (exec (loadSession_resume desktop (Response true (Some stored))) loaded)
  = SidStr (js "s0").
Proof.
  pose proof (session_loaded desktop loaded stored
                [(true, Some (js "hi")); (false, Some (js "Hello Ann"))]
                (Some (js "Ann")) eq_refl eq_refl eq_refl) as H.
  cbv zeta in H. destruct H as (_ & H & _). exact H.
Defined.

(** X19: a confirmed restart switches continuous mode off, cancels the
    speech, forgets the patient, clears the chat and asks for a new
    session; until that answer comes the old session id stays, and
    auto-speak stays as it is.  The listener is asked to stop exactly if
    it was listening in continuous mode. *)
Theorem restart_resets (env : Env) (s : State) :
  speechSynthesisSupported env = true ->
  reachable env s ->
  let s' := exec (restartSession env) s in
  returns (restartSession env) s
  /\ continuousMode s' = false
  /\ isSpeaking s' = false
  /\ patientData s' = PdObject None
  /\ sessionId s' = sessionId s
  /\ autoSpeak s' = autoSpeak s
  /\ awaitingRestart s' = S (awaitingRestart s)
  /\ (exists before,
        emitted s s' =
          before ++ [SynthCancel; ChatCleared;
                     Fetch (js "/start-session") SidUndefined None])
  /\ (In RecognitionStop (emitted s s')
      <-> continuousMode s && isRecording s = true).
Proof.
  unfold returns.
  intros Hs Hr. apply reachable_invariant in Hr. destruct Hr as [Hc _].
  apply consistent_iff in Hc. revert Hs Hc.
  destruct s as [sid pd r rc b cu sp c mi ts ac an ar al lg]; destruct env as [rs ss vs].
  cbn [speechSynthesisSupported isRecording recognition isSpeaking
       continuousMode autoSpeak sessionId awaitingRestart].
  intros -> (Hrc & _). cbv zeta.
  destruct rc; [rewrite (Hrc eq_refl) |]; destruct c;
    unfold_js; appended; cbn [In];
    repeat split; auto;
    try (intros H; intuition discriminate);
    try discriminate.
  all: match goal with
       | |- exists before, ?l = _ =>
           first [ exists [] ; reflexivity
                 | eexists [_]; reflexivity
                 | eexists [_; _]; reflexivity
                 | eexists [_; _; _]; reflexivity
                 | eexists [_; _; _; _]; reflexivity
                 | eexists [_; _; _; _; _]; reflexivity ]
       | _ => idtac
       end.
Qed.

Lemma restart_resets_witness :
  continuousMode (exec (restartSession desktop) continuous_listening) = false
  /\ In RecognitionStop
       (emitted continuous_listening
          (exec (restartSession desktop) continuous_listening)).
Proof.
  assert (Hr : reachable desktop continuous_listening)
    by (exists [WindowLoad; StartSessionSettles greeting; ClickContinuousMode;
                ListenerStart]; vm_compute; reflexivity).
  pose proof (restart_resets desktop continuous_listening eq_refl Hr) as H.
  cbv zeta in H. destruct H as (_ & H2 & _ & _ & _ & _ & _ & _ & H9).
  split; [exact H2 | apply H9; reflexivity].
Defined.

(** X20: when the first request for a session fails, the page says so
    and keeps no session id, and the listener is still set up: created
    where the browser has speech recognition, reported missing where it
    has not. *)
Theorem load_without_server (env : Env) (s : State) (reply : Reply SessionData) :
  no_body reply = true ->
  let s' := exec (window_onload_resume env reply) s in
  returns (window_onload_resume env reply) s
  /\ sessionId s' = sessionId s
  /\ recognition s' = (speechRecognitionSupported env || recognition s)
  /\ emitted s s' =
       [ConsoleError (js "Error starting session:");
        Notification (js "Failed to connect to server") (js "error")]
       ++ (if speechRecognitionSupported env then []
           else [Notification (js "Voice recognition not supported in this browser")
                   (js "error")]).
Proof.
  unfold returns.
  destruct s as [sid pd r rc b cu sp c mi ts ac an ar al lg]; destruct env as [rs ss vs].
  cbn [speechRecognitionSupported sessionId recognition].
  destruct reply as [| ok [data |]]; cbn [no_body]; try discriminate;
    intros _; destruct rs; unfold_js; appended; repeat split.
Qed.

Lemma load_without_server_witness :
  sessionId (exec (window_onload_resume desktop FetchRejected) initial) = SidNull
  /\ recognition (exec (window_onload_resume desktop FetchRejected) initial) = true.
Proof.
  pose proof (load_without_server desktop initial FetchRejected eq_refl) as H.
  cbv zeta in H. destruct H as (_ & H2 & H3 & _).
  split; [exact H2 | exact H3].
Defined.

(** X21: [startNewSession] does not look at the status of the answer:
    any answer with a JSON body, an error answer too, sets the session id
    to the field it reads, shows the message as the doctor's and reports
    a new consultation; with auto-speak off nothing is spoken. *)
Theorem session_started_from_any_body (env : Env) (s : State) (ok : bool)
    (data : SessionData) (n : option JsString) :
  patientData s = PdObject n ->
  autoSpeak s = false ->
  let s' := exec (startNewSession_resume env (Response ok (Some data))) s in
  sessionId s' = new_session_id data
  /\ (exists info,
        emitted s s' =
          [SessionInfo info (new_session_id data);
           Message doctor (message data);
           Notification (js "New consultation started!") (js "success")])
  /\ scheduled s s' = [mkTimer 3000 HideNotification]
  /\ currentUtterance s' = currentUtterance s.
Proof.
  destruct s as [sid pd r rc b cu sp c mi ts ac an ar al lg].
  destruct data as [nsid msg].
  cbn [patientData autoSpeak new_session_id message currentUtterance].
  intros -> ->. cbv zeta.
  unfold_js; appended; repeat split. eexists; reflexivity.
Qed.

Lemma session_started_from_any_body_witness :
  sessionId
    (exec (startNewSession_resume desktop
             (Response false (Some (mkSessionData SidUndefined None)))) loaded)
  = SidUndefined.
Proof.
  pose proof (session_started_from_any_body desktop loaded false
                (mkSessionData SidUndefined None) None eq_refl eq_refl) as H.
  cbv zeta in H. destruct H as (H & _). exact H.
Defined.

(* ================================================================== *)
(** * What the cleaning deletes, and when it deletes nothing *)
(* ================================================================== *)

Section Deleting.
Import Regex RegexFacts.

Lemma subseq_trans {A} (a b c : list A) : subseq a b -> subseq b c -> subseq a c.
Proof.
  intros Hab Hbc. revert a Hab.
  induction Hbc as [| x b c _ IH | x b c _ IH]; intros a Hab.
  - exact Hab.
  - inversion Hab; subst; constructor; auto.
  - constructor. auto.
Qed.

Lemma subseq_length {A} (a b : list A) :
  subseq a b -> List.length a <= List.length b.
Proof. induction 1; cbn [List.length]; lia. Qed.

(** A replace by the empty string only deletes. *)
Lemma replace_from_subseq (m : Matcher) (k : nat) (s : JsString) :
  subseq (replace_from m [] k s) s.
Proof.
  revert k. induction s as [| c t IH]; intros k; cbn [replace_from].
  - constructor.
  - destruct k as [| k]; [| constructor; apply IH].
    destruct (m (c :: t)) as [[| j] |]; cbn [app]; constructor; apply IH.
Qed.

Lemma cap_subseq (k : nat) (s : JsString) : subseq (cap_newlines k s) s.
Proof.
  revert k. induction s as [| c t IH]; intros k; cbn [cap_newlines].
  - constructor.
  - destruct (Z.eqb c NL); [destruct (Nat.ltb k 2) |]; constructor; apply IH.
Qed.

(** ** Lengths *)

Lemma replace_from_length (m : Matcher) (rep : JsString) :
  shrinking m rep ->
  forall k s,
    List.length (replace_from m rep k s) + Nat.min k (List.length s)
    <= List.length s.
Proof.
  intros Hm k s. revert k.
  induction s as [| c t IH]; intros k; cbn [replace_from List.length]; [lia |].
  destruct k as [| k].
  - destruct (m (c :: t)) as [[| j] |] eqn:E; cbn [List.length Nat.min];
      try (specialize (IH 0); lia).
    apply Hm in E. cbn [List.length] in E. rewrite length_app.
    specialize (IH j). lia.
  - specialize (IH k). cbn [Nat.min]. lia.
Qed.

Lemma replace_length (m : Matcher) (rep : JsString) (s : JsString) :
  shrinking m rep -> List.length (replace m rep s) <= List.length s.
Proof.
  intros Hm. pose proof (replace_from_length m rep Hm 0 s) as H.
  unfold replace. lia.
Qed.

(** Where the expression matches somewhere, the replace shortens. *)
Lemma replace_shorter (m : Matcher) (rep : JsString) (s : JsString) :
  shrinking m rep -> occurs m s = true ->
  List.length (replace m rep s) < List.length s.
Proof.
  intros Hm. unfold replace.
  induction s as [| c t IH]; cbn [occurs]; unfold hit.
  - destruct (m []) as [[| j] |] eqn:E; cbn; try discriminate.
    apply Hm in E. cbn [List.length] in E. lia.
  - cbn [replace_from List.length].
    destruct (m (c :: t)) as [[| j] |] eqn:E; cbn [orb List.length];
      try (intros H; apply IH in H; lia).
    intros _. apply Hm in E. cbn [List.length] in E. rewrite length_app.
    pose proof (replace_from_length m rep Hm j t). lia.
Qed.

(** Where it matches nowhere, the replace is the identity. *)
Lemma replace_fixed (m : Matcher) (rep : JsString) (s : JsString) :
  occurs m s = false -> replace m rep s = s.
Proof.
  unfold replace.
  induction s as [| c t IH]; cbn [occurs replace_from]; [reflexivity |].
  unfold hit. intros H. apply orb_false_elim in H. destruct H as [H1 H2].
  destruct (m (c :: t)) as [[| j] |]; try discriminate; rewrite (IH H2); reflexivity.
Qed.

(** ** Where the four expressions match *)

Lemma existsb_orb {A} (f g : A -> bool) (l : list A) :
  existsb (fun x => f x || g x) l = existsb f l || existsb g l.
Proof.
  induction l as [| a l IH]; cbn [existsb]; [reflexivity |].
  rewrite IH. destruct (f a), (g a), (existsb f l); reflexivity.
Qed.

Lemma existsb_pointwise {A} (f g : A -> bool) (l : list A) :
  (forall x, f x = g x) -> existsb f l = existsb g l.
Proof.
  intros H. induction l as [| a l IH]; cbn [existsb]; [reflexivity |].
  rewrite H, IH. reflexivity.
Qed.

Lemma hit_alternation (alts : list JsString) (s : JsString) :
  forallb (fun a => negb (units_eqb a [])) alts = true ->
  hit (alternation alts) s = existsb (fun a => startsWith a s) alts.
Proof.
  unfold hit. induction alts as [| a alts IH]; cbn [forallb alternation existsb];
    [reflexivity |].
  intros H. apply andb_prop in H. destruct H as [Ha H].
  destruct (startsWith a s); cbn [orb]; [| exact (IH H)].
  destruct a; [discriminate | reflexivity].
Qed.

Lemma occurs_alternation (alts : list JsString) (s : JsString) :
  forallb (fun a => negb (units_eqb a [])) alts = true ->
  occurs (alternation alts) s = existsb (includes s) alts.
Proof.
  intros H. induction s as [| c t IH]; cbn [occurs].
  - rewrite (hit_alternation alts [] H), orb_false_r.
    apply existsb_pointwise. intros a. cbn [includes]. rewrite orb_false_r.
    reflexivity.
  - rewrite (hit_alternation alts _ H), IH, <- existsb_orb.
    apply existsb_pointwise. intros a. reflexivity.
Qed.

Lemma occurs_literal (lit : JsString) (s : JsString) :
  lit <> [] -> occurs (literal lit) s = includes s lit.
Proof.
  intros H.
  change (literal lit) with (alternation [lit]).
  rewrite occurs_alternation.
  - cbn [existsb]. apply orb_false_r.
  - destruct lit; [congruence | reflexivity].
Qed.

Lemma occurs_at_least_1 (u : Z) (s : JsString) :
  occurs (at_least 1 u) s = existsb (Z.eqb u) s.
Proof.
  induction s as [| c t IH]; cbn [occurs existsb]; [reflexivity |].
  rewrite IH. unfold hit, at_least. cbn [run_length].
  rewrite (Z.eqb_sym u c). destruct (Z.eqb c u); reflexivity.
Qed.

Lemma hit_at_least (n : nat) (u : Z) (s : JsString) :
  hit (at_least (S n) u) s = startsWith (repeat u (S n)) s.
Proof.
  rewrite startsWith_repeat. unfold hit, at_least. cbv zeta.
  destruct (Nat.leb (S n) (run_length u s)) eqn:E; [| reflexivity].
  apply Nat.leb_le in E. destruct (run_length u s); [lia | reflexivity].
Qed.

Lemma occurs_at_least (n : nat) (u : Z) (s : JsString) :
  occurs (at_least (S n) u) s = includes s (repeat u (S n)).
Proof.
  induction s as [| c t IH]; cbn [occurs includes]; rewrite hit_at_least;
    [| rewrite IH]; reflexivity.
Qed.

(** ** The four passes shrink *)

Lemma alternation_shrinking (alts : list JsString) : shrinking (alternation alts) [].
Proof.
  intros x j. induction alts as [| a alts IH]; cbn [alternation]; [discriminate |].
  destruct (startsWith a x) eqn:E; [| exact IH].
  intros H. injection H as H. apply startsWith_fit in E.
  cbn [List.length]. lia.
Qed.

Lemma at_least_shrinking (n : nat) (u : Z) (rep : JsString) :
  List.length rep < n -> shrinking (at_least n u) rep.
Proof.
  intros Hn x j. unfold at_least. cbv zeta.
  destruct (Nat.leb n (run_length u x)) eqn:E; [| discriminate].
  intros H. injection H as H. apply Nat.leb_le in E.
  pose proof (run_length_fit u x). lia.
Qed.

Lemma strip_emoji_shrinking : shrinking (alternation emoji) [].
Proof. apply alternation_shrinking. Qed.

Lemma strip_bars_shrinking : shrinking (at_least 1 HBAR) [].
Proof. apply at_least_shrinking. cbn. lia. Qed.

Lemma strip_bold_shrinking : shrinking (literal [STAR; STAR]) [].
Proof. apply (alternation_shrinking [[STAR; STAR]]). Qed.

Lemma collapse_shrinking : shrinking (at_least 3 NL) [NL; NL].
Proof. apply at_least_shrinking. cbn. lia. Qed.

End Deleting.

(** X22: the cleaning only deletes: the cleaned text is the text with
    some of its code units left out, in the same order, and so is never
    longer. *)
Theorem cleanText_only_deletes (t : JsString) :
  subseq (cleanText t) t
  /\ (List.length (cleanText t) <= List.length t)%nat.
Proof.
  assert (H : subseq (cleanText t) t).
  { unfold cleanText. rewrite collapse_cap.
    eapply subseq_trans; [apply cap_subseq |].
    eapply subseq_trans; [apply replace_from_subseq |].
    eapply subseq_trans; [apply replace_from_subseq |].
    apply replace_from_subseq. }
  split; [exact H | apply subseq_length, H].
Qed.

(** X23: the cleaning leaves a text as it is exactly when the text holds
    none of the listed emoji, no bar, no [**] and no three newlines in a
    row. *)
Theorem cleanText_fixed_point (t : JsString) :
  cleanText t = t <-> nothing_to_clean t = true.
Proof.
  unfold nothing_to_clean.
  rewrite <- (occurs_at_least_1 HBAR t).
  rewrite <- (occurs_literal [STAR; STAR] t) by discriminate.
  change [NL; NL; NL] with (repeat NL 3).
  rewrite <- (occurs_at_least 2 NL t).
  assert (Hex : forall l, forallb (fun e => negb (includes t e)) l
                          = negb (existsb (includes t) l)).
  { induction l as [| a l IH]; cbn [forallb existsb]; [reflexivity |].
    rewrite IH, negb_orb. reflexivity. }
  rewrite Hex, <- (occurs_alternation emoji t eq_refl).
  unfold cleanText, collapse_newlines, strip_bold, strip_bars, strip_emoji.
  pose proof (replace_length (Regex.alternation emoji) [] t strip_emoji_shrinking) as L1.
  destruct (occurs (Regex.alternation emoji) t) eqn:E1.
  { split; [| discriminate]. intros H. exfalso.
    pose proof (replace_shorter _ _ t strip_emoji_shrinking E1) as S1.
    set (t1 := Regex.replace (Regex.alternation emoji) [] t) in *.
    pose proof (replace_length _ _ t1 strip_bars_shrinking) as L2.
    set (t2 := Regex.replace (Regex.at_least 1 HBAR) [] t1) in *.
    pose proof (replace_length _ _ t2 strip_bold_shrinking) as L3.
    set (t3 := Regex.replace (Regex.literal [STAR; STAR]) [] t2) in *.
    pose proof (replace_length _ _ t3 collapse_shrinking) as L4.
    rewrite H in L4. lia. }
  rewrite (replace_fixed _ [] t E1).
  destruct (occurs (Regex.at_least 1 HBAR) t) eqn:E2.
  { split; [| discriminate]. intros H. exfalso.
    pose proof (replace_shorter _ _ t strip_bars_shrinking E2) as S2.
    set (t2 := Regex.replace (Regex.at_least 1 HBAR) [] t) in *.
    pose proof (replace_length _ _ t2 strip_bold_shrinking) as L3.
    set (t3 := Regex.replace (Regex.literal [STAR; STAR]) [] t2) in *.
    pose proof (replace_length _ _ t3 collapse_shrinking) as L4.
    rewrite H in L4. lia. }
  rewrite (replace_fixed _ [] t E2).
  destruct (occurs (Regex.literal [STAR; STAR]) t) eqn:E3.
  { split; [| discriminate]. intros H. exfalso.
    pose proof (replace_shorter _ _ t strip_bold_shrinking E3) as S3.
    set (t3 := Regex.replace (Regex.literal [STAR; STAR]) [] t) in *.
    pose proof (replace_length _ _ t3 collapse_shrinking) as L4.
    rewrite H in L4. lia. }
  rewrite (replace_fixed _ [] t E3).
  destruct (occurs (Regex.at_least 3 NL) t) eqn:E4.
  { split; [| discriminate]. intros H. exfalso.
    pose proof (replace_shorter _ _ t collapse_shrinking E4) as S4.
    rewrite H in S4. lia. }
  rewrite (replace_fixed _ _ t E4). split; reflexivity.
Qed.

(* ================================================================== *)
(** * Every listed emoji of the text is deleted *)
(* ================================================================== *)

Section Marking.
Import Regex RegexFacts.

Lemma mark_from_units (m : Matcher) (k : nat) (s : JsString) :
  units (mark_from m k s) = s.
Proof.
  revert k. induction s as [| c t IH]; intros k; cbn [mark_from]; [reflexivity |].
  destruct k as [| k]; [destruct (m (c :: t)) as [[| j] |] |];
    unfold units in *; cbn [map fst]; rewrite IH; reflexivity.
Qed.

Lemma mark_from_kept (m : Matcher) (k : nat) (s : JsString) :
  kept (mark_from m k s) = replace_from m [] k s.
Proof.
  revert k. induction s as [| c t IH]; intros k; cbn [mark_from replace_from];
    [reflexivity |].
  destruct k as [| k]; [destruct (m (c :: t)) as [[| j] |] |];
    unfold kept in *; cbn [filter snd map fst app]; rewrite IH; reflexivity.
Qed.

(** The units still to be passed over are marked deleted. *)
Lemma mark_from_skipped (m : Matcher) (k n : nat) (s : JsString) :
  n <= k -> all_deleted (firstn n (mark_from m k s)) = true.
Proof.
  revert k n. induction s as [| c t IH]; intros k n Hn; cbn [mark_from].
  - rewrite firstn_nil. reflexivity.
  - destruct n as [| n]; [reflexivity |].
    destruct k as [| k]; [lia |].
    cbn [firstn all_deleted forallb snd negb andb]. apply IH. lia.
Qed.

Lemma alternation_In (alts : list JsString) (s : JsString) (n : nat) :
  alternation alts s = Some n ->
  exists a, In a alts /\ startsWith a s = true /\ n = List.length a.
Proof.
  induction alts as [| a alts IH]; cbn [alternation]; [discriminate |].
  destruct (startsWith a s) eqn:E.
  - intros [= <-]. exists a. cbn [In]. auto.
  - intros H. destruct (IH H) as (a' & Ha & Hs & Hn). exists a'. cbn [In]. auto.
Qed.

Lemma startsWith_firstn (a s : JsString) :
  startsWith a s = true -> firstn (List.length a) s = a.
Proof.
  revert s. induction a as [| x a IH]; intros s; [reflexivity |].
  destruct s as [| y s]; cbn [startsWith List.length firstn]; [discriminate |].
  intros H. apply andb_prop in H. destruct H as [Hx H].
  apply Z.eqb_eq in Hx. subst y. rewrite (IH s H). reflexivity.
Qed.

(** Behind its first code unit no listed emoji holds a code unit that a
    listed emoji starts with. *)
Lemma emoji_tail (e : JsString) :
  In e emoji -> forallb starts_no_emoji (tl e) = true.
Proof.
  cbn [emoji In]. intros H.
  repeat (destruct H as [<- | H]; [reflexivity |]). destruct H.
Qed.

Lemma emoji_head (e : JsString) :
  In e emoji -> exists c r, e = c :: r /\ starts_no_emoji c = false.
Proof.
  cbn [emoji In]. intros H.
  repeat (destruct H as [<- | H]; [eexists; eexists; split; reflexivity |]).
  destruct H.
Qed.

(** The units of a match behind the first start no listed emoji. *)
Lemma match_tail (c : Z) (t : JsString) (j : nat) :
  alternation emoji (c :: t) = Some (S j) ->
  forallb starts_no_emoji (firstn j t) = true.
Proof.
  intros H. apply alternation_In in H. destruct H as (a & Ha & Hs & Hn).
  apply startsWith_firstn in Hs. rewrite <- Hn in Hs. cbn [firstn] in Hs.
  rewrite <- Hs in Ha. apply emoji_tail in Ha. exact Ha.
Qed.

(** Where a listed emoji stands, the match found there covers it. *)
Lemma match_covers (e b : JsString) :
  In e emoji ->
  exists j, alternation emoji (e ++ b) = Some (S j) /\ List.length e <= S j.
Proof.
  intros He. cbn [emoji In] in He.
  repeat (destruct He as [<- | He];
          [try (eexists; split; [reflexivity | cbn; lia]) |]); [| destruct He].
  unfold emoji. cbn [alternation].
  change (startsWith stethoscope (warning ++ b)) with false.
  change (startsWith light_bulb (warning ++ b)) with false.
  change (startsWith pill (warning ++ b)) with false.
  change (startsWith green_salad (warning ++ b)) with false.
  change (startsWith warning_vs (warning ++ b)) with (true && startsWith [VS16] b).
  cbn [andb]. destruct (startsWith [VS16] b).
  - exists 1. split; [reflexivity | cbn; lia].
  - exists 0. split; [reflexivity | cbn; lia].
Qed.

(** The first pass deletes every listed emoji of the text, whole. *)
Lemma mark_from_emoji (s : JsString) :
  forall k a e b,
    forallb starts_no_emoji (firstn k s) = true ->
    s = a ++ e ++ b ->
    In e emoji ->
    all_deleted
      (firstn (List.length e)
         (skipn (List.length a) (mark_from (alternation emoji) k s))) = true.
Proof.
  induction s as [| c t IH]; intros k a e b Hk Hs He.
  - destruct (emoji_head e He) as (c & r & -> & _).
    destruct a; discriminate Hs.
  - destruct a as [| a0 a].
    + cbn [app] in Hs. cbn [List.length skipn].
      destruct (emoji_head e He) as (c' & r & Ee & Hc).
      destruct k as [| k].
      * destruct (match_covers e b He) as (j & Hm & Hj).
        rewrite <- Hs in Hm. cbn [mark_from]. rewrite Hm.
        change ((c, false) :: mark_from (alternation emoji) j t)
          with (mark_from (alternation emoji) (S j) (c :: t)).
        apply mark_from_skipped. exact Hj.
      * exfalso. cbn [firstn forallb] in Hk. apply andb_prop in Hk.
        destruct Hk as [Hk _]. subst e. cbn [app] in Hs.
        injection Hs as -> _. rewrite Hk in Hc. discriminate Hc.
    + cbn [app] in Hs. injection Hs as -> Hs.
      cbn [List.length mark_from].
      destruct k as [| k].
      * destruct (alternation emoji (a0 :: t)) as [[| j] |] eqn:Em;
          cbn [skipn]; apply IH with (b := b); auto.
        exact (match_tail a0 t j Em).
      * cbn [skipn]. apply IH with (b := b); auto.
        cbn [firstn forallb] in Hk. apply andb_prop in Hk. apply Hk.
Qed.

(** ** Later deletions *)

(** A text that only deletes from the kept units of a marked text is the
    kept text of a thinner marking. *)
Lemma thinner_subseq (m : Marked) (r : JsString) :
  subseq r (kept m) ->
  exists m', thinner m' m /\ kept m' = r.
Proof.
  revert r. induction m as [| [u k] m IH]; intros r H.
  - inversion H; subst. exists []. split; [constructor | reflexivity].
  - destruct k.
    + change (kept ((u, true) :: m)) with (u :: kept m) in H.
      inversion H as [| x a b' Hab | x a b' Hab]; subst.
      * destruct (IH a Hab) as (m' & Hm & Hk). exists ((u, true) :: m').
        split; [constructor; [split; auto | exact Hm] |].
        change (kept ((u, true) :: m')) with (u :: kept m'). rewrite Hk.
        reflexivity.
      * destruct (IH r Hab) as (m' & Hm & Hk). exists ((u, false) :: m').
        split; [constructor; [split; [reflexivity | discriminate] | exact Hm] |].
        exact Hk.
    + change (kept ((u, false) :: m)) with (kept m) in H.
      destruct (IH r H) as (m' & Hm & Hk). exists ((u, false) :: m').
      split; [constructor; [split; [reflexivity | discriminate] | exact Hm] |].
      exact Hk.
Qed.

Lemma thinner_units (m' m : Marked) : thinner m' m -> units m' = units m.
Proof.
  induction 1 as [| x' x m' m [Hx _] _ IH]; [reflexivity |].
  unfold units in *. cbn [map]. rewrite Hx, IH. reflexivity.
Qed.

Lemma thinner_all_deleted (m' m : Marked) :
  thinner m' m -> all_deleted m = true -> all_deleted m' = true.
Proof.
  induction 1 as [| x' x m' m [_ Hx] _ IH]; [reflexivity |].
  intros H. change (negb (snd x) && all_deleted m = true) in H.
  change (negb (snd x') && all_deleted m' = true).
  apply andb_prop in H. destruct H as [Hd H]. rewrite (IH H), andb_true_r.
  destruct (snd x'); [rewrite (Hx eq_refl) in Hd; discriminate Hd | reflexivity].
Qed.

Lemma thinner_emoji (m' m : Marked) :
  thinner m' m ->
  (forall a e b, m = a ++ e ++ b -> In (units e) emoji -> all_deleted e = true) ->
  forall a e b, m' = a ++ e ++ b -> In (units e) emoji -> all_deleted e = true.
Proof.
  intros Hm H a e b -> He.
  apply Forall2_app_inv_l in Hm. destruct Hm as (a0 & r & _ & Hr & ->).
  apply Forall2_app_inv_l in Hr. destruct Hr as (e0 & b0 & He0 & _ & ->).
  apply (thinner_all_deleted e e0 He0).
  apply (H a0 e0 b0 eq_refl). rewrite <- (thinner_units e e0 He0). exact He.
Qed.

(** A stretch none of whose units is deleted is kept as it is. *)
Lemma kept_whole (m : Marked) : some_deleted m = false -> kept m = units m.
Proof.
  induction m as [| [u k] m IH]; [reflexivity |].
  intros H. change (negb k || some_deleted m = false) in H.
  apply orb_false_elim in H.
  destruct H as [Hk H]. destruct k; [| discriminate Hk].
  change (kept ((u, true) :: m)) with (u :: kept m). rewrite (IH H). reflexivity.
Qed.

Lemma all_deleted_some (m : Marked) :
  m <> [] -> all_deleted m = true -> some_deleted m = true.
Proof.
  destruct m as [| x m]; [congruence |]. intros _.
  cbn [all_deleted some_deleted forallb existsb]. intros H.
  apply andb_prop in H. destruct H as [-> _]. reflexivity.
Qed.

(** The kept text cut in two cuts the marked text in two, the second part
    starting with the first unit kept. *)
Lemma kept_split (m : Marked) (x r : JsString) :
  kept m = x ++ r ->
  exists a b,
    m = a ++ b /\ kept a = x /\ kept b = r
    /\ (r <> [] -> exists u b', b = (u, true) :: b').
Proof.
  revert x. induction m as [| [u k] m IH]; intros x H.
  - destruct x; [| discriminate H]. destruct r; [| discriminate H].
    exists [], []. repeat split. congruence.
  - destruct k.
    + change (kept ((u, true) :: m)) with (u :: kept m) in H.
      destruct x as [| x0 x].
      * exists [], ((u, true) :: m). repeat split; [exact H |]. eauto.
      * injection H as <- H. destruct (IH x H) as (a & b & -> & Ha & Hb & Hr).
        exists ((u, true) :: a), b. repeat split; auto.
        change (kept ((u, true) :: a)) with (u :: kept a). rewrite Ha. reflexivity.
    + change (kept ((u, false) :: m)) with (kept m) in H.
      destruct (IH x H) as (a & b & -> & Ha & Hb & Hr).
      exists ((u, false) :: a), b. repeat split; auto.
Qed.

(** The same, the first part ending with the last unit kept. *)
Lemma kept_split_end (m : Marked) (e y : JsString) :
  kept m = e ++ y ->
  exists s b,
    m = s ++ b /\ kept s = e /\ kept b = y
    /\ (e <> [] -> exists s' v, s = s' ++ [(v, true)]).
Proof.
  revert e. induction m as [| [u k] m IH]; intros e H.
  - destruct e; [| discriminate H]. destruct y; [| discriminate H].
    exists [], []. repeat split. congruence.
  - destruct e as [| e0 e].
    + exists [], ((u, k) :: m). repeat split; [exact H |]. congruence.
    + destruct k.
      * change (kept ((u, true) :: m)) with (u :: kept m) in H.
        injection H as <- H. destruct e as [| e1 e].
        -- exists [(u, true)], m. repeat split; [exact H |].
           intros _. exists [], u. reflexivity.
        -- destruct (IH (e1 :: e) H) as (s & b & -> & Hs & Hb & He).
           exists ((u, true) :: s), b. repeat split; auto.
           ++ change (kept ((u, true) :: s)) with (u :: kept s). rewrite Hs.
              reflexivity.
           ++ intros _. destruct He as (s' & v & ->); [discriminate |].
              exists ((u, true) :: s'), v. reflexivity.
      * change (kept ((u, false) :: m)) with (kept m) in H.
        destruct (IH (e0 :: e) H) as (s & b & -> & Hs & Hb & He).
        exists ((u, false) :: s), b. repeat split; auto.
        intros _. destruct He as (s' & v & ->); [discriminate |].
        exists ((u, false) :: s'), v. reflexivity.
Qed.

(** The marking of the cleaning as a whole. *)
Lemma cleanText_marked (t : JsString) :
  exists m : Marked,
    units m = t
    /\ kept m = cleanText t
    /\ (forall a e b,
          m = a ++ e ++ b -> In (units e) emoji -> all_deleted e = true)
    /\ (forall x e y,
          cleanText t = x ++ e ++ y -> In e emoji ->
          exists a u s v b,
            m = a ++ ((u, true) :: s ++ [(v, true)]) ++ b
            /\ kept a = x
            /\ kept ((u, true) :: s ++ [(v, true)]) = e
            /\ kept b = y
            /\ some_deleted s = true).
Proof.
  set (m1 := mark_from (alternation emoji) 0 t).
  assert (H1 : forall a e b,
             m1 = a ++ e ++ b -> In (units e) emoji -> all_deleted e = true).
  { intros a e b Hm He.
    pose proof (mark_from_emoji t 0 (units a) (units e) (units b) eq_refl) as H.
    rewrite <- (mark_from_units (alternation emoji) 0 t) in H at 1.
    fold m1 in H. rewrite Hm in H. unfold units in H.
    rewrite !map_app in H. specialize (H eq_refl He).
    rewrite !length_map, skipn_app, skipn_all, Nat.sub_diag in H.
    cbn [app skipn] in H. rewrite firstn_app, firstn_all, Nat.sub_diag in H.
    cbn [firstn] in H. rewrite app_nil_r in H. exact H. }
  assert (Hs : subseq (cleanText t) (kept m1)).
  { unfold m1. rewrite mark_from_kept. unfold cleanText. rewrite collapse_cap.
    eapply subseq_trans; [apply cap_subseq |].
    eapply subseq_trans; apply replace_from_subseq. }
  destruct (thinner_subseq m1 (cleanText t) Hs) as (m & Hm & Hk).
  assert (H3 : forall a e b,
             m = a ++ e ++ b -> In (units e) emoji -> all_deleted e = true)
    by exact (thinner_emoji m m1 Hm H1).
  assert (H4 : forall a e b,
             m = a ++ e ++ b -> In (kept e) emoji -> some_deleted e = true).
  { intros a e b Hab He.
    destruct (some_deleted e) eqn:E; [reflexivity |].
    rewrite (kept_whole e E) in He.
    rewrite <- E. apply all_deleted_some; [| exact (H3 a e b Hab He)].
    intros ->. destruct (emoji_head _ He) as (c & r & Hc & _). discriminate Hc. }
  exists m. split; [| split; [exact Hk | split; [exact H3 |]]].
  - rewrite (thinner_units m m1 Hm). apply mark_from_units.
  - intros x e y Hx He. rewrite <- Hk in Hx.
    destruct (emoji_head e He) as (c & r & Ee & _).
    assert (Hne : e <> []) by (rewrite Ee; discriminate).
    destruct (kept_split m x (e ++ y) Hx) as (a & b0 & Hab & Ha & Hb0 & Hu).
    destruct Hu as (u & b0' & Eb0); [destruct e; [congruence | discriminate] |].
    destruct (kept_split_end b0 e y Hb0) as (s0 & b & Hsb & Hs0 & Hb & Hv).
    destruct (Hv Hne) as (s' & v & Es0).
    assert (Hm0 : m = a ++ s0 ++ b) by (rewrite Hab, Hsb; reflexivity).
    pose proof (H4 a s0 b Hm0 ltac:(rewrite Hs0; exact He)) as Hd.
    destruct s' as [| w s].
    + exfalso. subst s0. cbn in Hd. discriminate Hd.
    + assert (Ew : w = (u, true)).
      { rewrite Es0, Eb0 in Hsb. cbn [app] in Hsb. congruence. }
      subst w. exists a, u, s, v, b. rewrite Es0 in Hm0, Hs0, Hd.
      repeat split; auto.
      change (some_deleted ((u, true) :: s ++ [(v, true)]) = true) in Hd.
      unfold some_deleted in *. cbn [existsb snd negb orb] in Hd.
      rewrite existsb_app in Hd. cbn [existsb snd negb orb] in Hd.
      rewrite orb_false_r in Hd. exact Hd.
Qed.

End Marking.

(* ================================================================== *)
(** * The text handed to the speaker *)
(* ================================================================== *)

(** C6, as amended: the utterance of [speakText] holds the cleaned text.
    For every text, the cleaned text is the text with code units deleted;
    it has no bar, no bold marker and no run of three newlines; every
    listed emoji that occurs in the text is deleted whole; and a listed
    emoji occurs in the cleaned text only where a deletion has joined its
    code units: it is spelled by a stretch of the text that starts and
    ends with a unit kept and has a unit deleted in between.  A text cut
    into plain pieces and decorative items keeps its plain pieces only;
    where the text had three or more newlines in a row the result has
    exactly two; and the greeting example comes out as stated. *)
Theorem cleanText_spec :
  (forall env s t,
      reachable env s ->
      speechSynthesisSupported env = true ->
      exists u,
        currentUtterance (exec (speakText env (Some t)) s) = Some u
        /\ text u = cleanText t)
  /\ (forall t, ~ In HBAR (cleanText t))
  /\ (forall t, includes (cleanText t) [STAR; STAR] = false)
  /\ (forall t, includes (cleanText t) [NL; NL; NL] = false)
  /\ (forall t,
        exists m : Marked,
          units m = t
          /\ kept m = cleanText t
          /\ (forall a e b,
                m = a ++ e ++ b -> In (units e) emoji -> all_deleted e = true)
          /\ (forall x e y,
                cleanText t = x ++ e ++ y -> In e emoji ->
                exists a u s v b,
                  m = a ++ ((u, true) :: s ++ [(v, true)]) ++ b
                  /\ kept a = x
                  /\ kept ((u, true) :: s ++ [(v, true)]) = e
                  /\ kept b = y
                  /\ some_deleted s = true))
  /\ (forall ps,
        Forall well_cut ps ->
        cleanText (flatten ps) = collapse_newlines (flatten (filter is_plain ps)))
  /\ (forall n a b,
        cleanText (a ++ repeat NL (3 + n) ++ b)
        = strip_trailing NL (cleanText a)
          ++ [NL; NL]
          ++ strip_leading NL (cleanText b))
  /\ cleanText (js "Hello " ++ stethoscope ++ js " patient") = js "Hello  patient".
Proof.
  repeat apply conj.
  - intros env s t Hr Hss.
    destruct (speakText_creates env s t Hr Hss) as (u & Hu & Ht & _).
    exists u. split; assumption.
  - intros t H. unfold cleanText, collapse_newlines, strip_bold in H.
    apply RegexFacts.replace_from_In in H. destruct H as [H | H].
    + apply RegexFacts.replace_from_In in H. destruct H as [H | []].
      exact (strip_bars_clean _ H).
    + cbn [In] in H. intuition discriminate.
  - intros t. unfold cleanText. rewrite collapse_cap.
    apply cap_keeps_bold_free, strip_bold_clean.
  - intros t. unfold cleanText. rewrite collapse_cap.
    apply cap_no_triple. lia.
  - exact cleanText_marked.
  - exact cleanText_pieces.
  - intros n a b. unfold cleanText.
    change (3 + n) with (S (2 + n)). rewrite strip_across_newlines.
    rewrite !collapse_cap. apply (cap_long_run n).
  - reflexivity.
Qed.

Lemma cleanText_spec_witness :
  (exists u,
      currentUtterance (exec (speakText desktop (Some (js "Hello"))) loaded)
      = Some u
      /\ text u = cleanText (js "Hello"))
  /\ (exists m : Marked,
        units m = stethoscope ++ js "*a"
        /\ kept m = cleanText (stethoscope ++ js "*a"))
  /\ cleanText (flatten [Plain (js "Hello "); Emoji stethoscope; Bold;
                         Plain (js " patient"); Bars 2])
     = collapse_newlines (js "Hello  patient").
Proof.
  destruct cleanText_spec as (H1 & _ & _ & _ & H5 & H6 & _).
  split; [| split].
  - apply (H1 desktop loaded (js "Hello")); [| reflexivity].
    exists [WindowLoad; StartSessionSettles greeting]. reflexivity.
  - destruct (H5 (stethoscope ++ js "*a")) as (m & Hu & Hk & _).
    exists m. split; assumption.
  - apply (H6 [Plain (js "Hello "); Emoji stethoscope; Bold;
               Plain (js " patient"); Bars 2]).
    repeat constructor.
Defined.

(** C6, as stated, fails: a shield, a stethoscope and a variation
    selector come out as the listed shield emoji. *)
Lemma listed_emoji_survives :
  In shield_vs emoji /\ cleanText joined_shield = shield_vs.
Proof. split; [cbn [emoji In]; auto 12 | reflexivity]. Qed.

(* ================================================================== *)
(** * The summary, its PDF and the session id box: properties *)
(* ================================================================== *)

(** Unfolds the statements over the page down to the record of the page
    and that of the globals. *)
Ltac unfold_page :=
  cbv beta iota zeta delta
    [Pdf.exec Pdf.returns Pdf.pret Pdf.pbind Pdf.pthrow Pdf.pread Pdf.pwrite
     Pdf.pskip Pdf.lift Pdf.ptry_catch Pdf.ptry_finally
     Pdf.generateSummary Pdf.generateSummary_resume Pdf.downloadPDF
     Pdf.togglePDFViewer Pdf.closeSummary Pdf.loadSessionById
     Pdf.loadSession_resume Pdf.restartSession
     Pdf.set_globals Pdf.set_currentPdfUrl Pdf.set_summaryText
     Pdf.set_pdfDownloadInfo Pdf.set_downloadPdfBtn Pdf.set_viewPdfBtnDisplay
     Pdf.set_viewPdfBtnText Pdf.set_summaryModal Pdf.set_pdfViewerContainer
     Pdf.set_pdfViewerSrc Pdf.set_downloads
     Pdf.globals Pdf.currentPdfUrl Pdf.sessionIdInput Pdf.summaryText
     Pdf.pdfDownloadInfo Pdf.downloadPdfBtn Pdf.viewPdfBtnDisplay
     Pdf.viewPdfBtnText Pdf.summaryModal Pdf.pdfViewerContainer
     Pdf.pdfViewerSrc Pdf.downloads
     summary pdf_url has_pdf stored_pdf_url without_pdf];
  unfold_js.

(** X24: without a session id, be it [null], [undefined] or the empty
    string, no summary is requested: the page says so and is otherwise
    as it was. *)
Theorem summary_needs_session (p : Pdf.Page) :
  no_session (sessionId (Pdf.globals p)) = true ->
  let p' := Pdf.exec Pdf.generateSummary p in
  emitted (Pdf.globals p) (Pdf.globals p')
    = [Notification (js "No active session") (js "error")]
  /\ p' = Pdf.set_globals (Pdf.globals p') p.
Proof.
  destruct p as [s url inp st di db vd vt sm vc vs dl].
  destruct s as [sid pd r rc b cu sp c mi ts ac an ar al lg].
  cbn [Pdf.globals sessionId]. intros H. cbv zeta.
  unfold_page. rewrite H. unfold_page. appended. split; reflexivity.
Qed.

Lemma summary_needs_session_witness :
  emitted (step desktop awaiting_answer (ChatSettles not_found))
    (Pdf.globals
       (Pdf.exec Pdf.generateSummary
          (plain_page (step desktop awaiting_answer (ChatSettles not_found)))))
  = [Notification (js "No active session") (js "error")].
Proof.
  pose proof (summary_needs_session
                (plain_page (step desktop awaiting_answer (ChatSettles not_found)))
                eq_refl) as H.
  cbv zeta in H. destruct H as (H & _). exact H.
Defined.

(** X25: a summary request that fails, rejected or answered without a
    JSON body, is reported and leaves the page as it was: the PDF of an
    earlier summary stays the current one. *)
Theorem summary_failure_keeps_page (API_URL : JsString) (p : Pdf.Page)
    (reply : Reply SummaryData) :
  no_body reply = true ->
  let p' := Pdf.exec (Pdf.generateSummary_resume API_URL reply) p in
  Pdf.returns (Pdf.generateSummary_resume API_URL reply) p
  /\ emitted (Pdf.globals p) (Pdf.globals p')
     = [ConsoleError (js "Error generating summary:");
        Notification (js "Failed to generate summary. Please try again.")
          (js "error");
        Loading false]
  /\ p' = Pdf.set_globals (Pdf.globals p') p.
Proof.
  destruct p as [s url inp st di db vd vt sm vc vs dl].
  destruct s as [sid pd r rc b cu sp c mi ts ac an ar al lg].
  destruct reply as [| ok [data |]]; cbn [no_body]; try discriminate;
    intros _; cbv zeta; unfold_page; appended; repeat split.
Qed.

Lemma summary_failure_keeps_page_witness :
  Pdf.exec (Pdf.generateSummary_resume origin FetchRejected) summarised
  = Pdf.set_globals
      (Pdf.globals
         (Pdf.exec (Pdf.generateSummary_resume origin FetchRejected) summarised))
      summarised.
Proof.
  pose proof (summary_failure_keeps_page origin summarised FetchRejected
                eq_refl) as H.
  cbv zeta in H. destruct H as (_ & _ & H). exact H.
Defined.

(** X26: a PDF is saved only when there is a PDF URL that is not empty
    and the session id is a string; it is then saved from that URL under
    a name that holds at most the first eight code units of the session
    id.  In every other case nothing is saved. *)
Theorem download_needs_pdf_and_session (p : Pdf.Page) :
  let p' := Pdf.exec Pdf.downloadPDF p in
  match Pdf.currentPdfUrl p, sessionId (Pdf.globals p) with
  | Some (u :: rest), SidStr id =>
      Pdf.downloads p' = Pdf.downloads p ++ [(u :: rest, Pdf.download_name id)]
      /\ (List.length (Pdf.download_name id) <= 33)%nat
  | _, _ => Pdf.downloads p' = Pdf.downloads p
  end.
Proof.
  destruct p as [s url inp st di db vd vt sm vc vs dl].
  destruct s as [sid pd r rc b cu sp c mi ts ac an ar al lg].
  cbn [Pdf.globals Pdf.currentPdfUrl sessionId Pdf.downloads]. cbv zeta.
  destruct url as [[| u rest] |]; try (destruct sid; reflexivity).
  destruct sid as [| | id]; try reflexivity.
  split; [reflexivity |]. unfold Pdf.download_name.
  rewrite !length_app. pose proof (firstn_le_length 8 id).
  change (List.length (js "Consultation_Summary_")) with 21.
  change (List.length (js ".pdf")) with 4. lia.
Qed.

(** The lines about the PDF leave the coordinator alone: on the globals
    the two functions that hold them do what their embeddings without
    those lines do. *)
Lemma restartSession_globals (env : Env) (p : Pdf.Page) :
  Pdf.globals (Pdf.exec (Pdf.restartSession env) p)
  = exec (restartSession env) (Pdf.globals p).
Proof.
  destruct p as [s url inp st di db vd vt sm vc vs dl].
  destruct s as [sid pd r rc b cu sp c mi ts ac an ar al lg]; destruct env as [rs ss vs'].
  destruct c, rc, r, ss; unfold_page; reflexivity.
Qed.

Lemma loadSession_resume_globals (env : Env) (API_URL : JsString) (p : Pdf.Page)
    (reply : Reply (LoadData * StoredPdf)) :
  Pdf.globals (Pdf.exec (Pdf.loadSession_resume env API_URL reply) p)
  = exec (loadSession_resume env (without_pdf reply)) (Pdf.globals p).
Proof.
  destruct p as [s url inp st di db vd vt sm vc vs dl].
  destruct s as [sid pd r rc b cu sp c mi ts ac an ar al lg]; destruct env as [rs ss vs'].
  destruct reply as [| [|] [[[lsid lpd lh] [hp pu]] |]];
    try (unfold_page; reflexivity).
  destruct ss; [| unfold_page; reflexivity].
  destruct lpd; [unfold_page; reflexivity |].
  destruct lh as [h |]; [| unfold_page; reflexivity].
  destruct hp, (truthy pu) eqn:E;
    unfold_page; rewrite !addHistory_spec; unfold_page; rewrite ?E;
    unfold_page; reflexivity.
Qed.

(** X27: a stored session that has no PDF is opened with the PDF of the
    session before it still current: the coordinator does what
    [loadSession] does without the PDF line, the session id is replaced,
    and a download then saves the earlier PDF under the name of the
    session just opened. *)
Theorem pdf_outlives_its_session (env : Env) (API_URL : JsString) (p : Pdf.Page)
    (data : LoadData) (pdf : StoredPdf) (h : list (bool * option JsString))
    (n : option JsString) (id url : JsString) :
  speechSynthesisSupported env = true ->
  loaded_session_id data = SidStr id ->
  loaded_patient_data data = PdObject n ->
  history data = Some h ->
  has_pdf pdf && truthy (stored_pdf_url pdf) = false ->
  Pdf.currentPdfUrl p = Some url ->
  url <> [] ->
  let reply := Response true (Some (data, pdf)) in
  let p1 := Pdf.exec (Pdf.loadSession_resume env API_URL reply) p in
  let p2 := Pdf.exec Pdf.downloadPDF p1 in
  Pdf.globals p1 = exec (loadSession_resume env (without_pdf reply)) (Pdf.globals p)
  /\ sessionId (Pdf.globals p1) = SidStr id
  /\ Pdf.currentPdfUrl p1 = Some url
  /\ Pdf.downloads p2 = Pdf.downloads p ++ [(url, Pdf.download_name id)].
Proof.
  intros Hs Hid Hpd Hh Hpdf Hurl Hne. cbv zeta.
  split; [apply loadSession_resume_globals |].
  revert Hs Hid Hpd Hh Hpdf Hurl Hne.
  destruct p as [s cur inp st di db vd vt sm vc vs dl].
  destruct s as [sid pd r rc b cu sp c mi ts ac an ar al lg]; destruct env as [rs ss vs'].
  destruct data as [lsid lpd lh]. destruct pdf as [hp pu].
  cbn [speechSynthesisSupported loaded_session_id loaded_patient_data history
       has_pdf stored_pdf_url Pdf.currentPdfUrl Pdf.downloads].
  intros -> -> -> -> Hpdf -> Hne.
  destruct url as [| u rest]; [congruence |].
  destruct hp; cbn [andb] in Hpdf;
    unfold_page; rewrite !addHistory_spec; unfold_page; rewrite ?Hpdf;
    unfold_page; repeat split.
Qed.

Lemma pdf_outlives_its_session_witness :
  Pdf.currentPdfUrl
    (Pdf.exec (Pdf.loadSession_resume desktop origin
                 (Response true (Some stored_pdf_less))) summarised)
  = Some (origin ++ js "/pdf/s1.pdf")
  /\ sessionId
       (Pdf.globals
          (Pdf.exec (Pdf.loadSession_resume desktop origin
                       (Response true (Some stored_pdf_less))) summarised))
     = SidStr (js "s0").
Proof.
  assert (Hne : origin ++ js "/pdf/s1.pdf" <> []) by discriminate.
  pose proof (pdf_outlives_its_session desktop origin summarised
                stored (mkStoredPdf false TextNull)
                [(true, Some (js "hi")); (false, Some (js "Hello Ann"))]
                (Some (js "Ann")) (js "s0") (origin ++ js "/pdf/s1.pdf")
                eq_refl eq_refl eq_refl eq_refl eq_refl eq_refl Hne) as H.
  cbv zeta in H. destruct H as (_ & H2 & H3 & _).
  split; [exact H3 | exact H2].
Defined.

(** X28: a confirmed restart forgets the PDF: the coordinator does what
    [restartSession] does without the PDF line, and a download
    afterwards saves nothing and says that there is no PDF. *)
Theorem restart_forgets_pdf (env : Env) (p : Pdf.Page) :
  speechSynthesisSupported env = true ->
  consistent env (Pdf.globals p) = true ->
  let p1 := Pdf.exec (Pdf.restartSession env) p in
  let p2 := Pdf.exec Pdf.downloadPDF p1 in
  Pdf.globals p1 = exec (restartSession env) (Pdf.globals p)
  /\ Pdf.currentPdfUrl p1 = None
  /\ Pdf.downloads p2 = Pdf.downloads p
  /\ emitted (Pdf.globals p1) (Pdf.globals p2)
     = [Notification (js "No PDF available") (js "error")].
Proof.
  intros Hs Hc. cbv zeta.
  split; [apply restartSession_globals |].
  apply consistent_iff in Hc. revert Hs Hc.
  destruct p as [s cur inp st di db vd vt sm vc vs dl].
  destruct s as [sid pd r rc b cu sp c mi ts ac an ar al lg]; destruct env as [rs ss vs'].
  cbn [speechSynthesisSupported Pdf.globals isRecording recognition Pdf.downloads].
  intros -> (Hrc & _).
  destruct rc; [rewrite (Hrc eq_refl) |]; destruct c;
    unfold_page; appended; repeat split.
Qed.

Lemma restart_forgets_pdf_witness :
  Pdf.currentPdfUrl summarised <> None
  /\ Pdf.currentPdfUrl (Pdf.exec (Pdf.restartSession desktop) summarised) = None.
Proof.
  split; [discriminate |].
  pose proof (restart_forgets_pdf desktop summarised eq_refl eq_refl) as H.
  cbv zeta in H. destruct H as (_ & H & _). exact H.
Defined.

(** X29: the session id box.  A box that is empty or holds white space
    only asks for an id and requests nothing; otherwise the history is
    closed and the session of the trimmed id is requested. *)
Theorem session_opened_by_trimmed_id (p : Pdf.Page) :
  let p' := Pdf.exec Pdf.loadSessionById p in
  emitted (Pdf.globals p) (Pdf.globals p') =
    if forallb is_js_space (Pdf.sessionIdInput p)
    then [Notification (js "Please enter a Session ID") (js "error")]
    else [Loading true; HistoryClosed;
          Fetch (js "/load-session/" ++ trim (Pdf.sessionIdInput p))
            SidUndefined None].
Proof.
  destruct p as [s cur inp st di db vd vt sm vc vs dl].
  destruct s as [sid pd r rc b cu sp c mi ts ac an ar al lg].
  cbn [Pdf.globals Pdf.sessionIdInput]. cbv zeta.
  destruct (forallb is_js_space inp) eqn:E.
  - unfold_page. rewrite (trim_blank _ E). unfold_page. appended. reflexivity.
  - destruct (trim_nonblank _ E) as (u & rest & Ht & _).
    unfold_page. rewrite Ht. unfold_page. appended. reflexivity.
Qed.

(** X30: the PDF viewer.  Closing the summary hides the viewer; the
    view button then shows it with the current PDF as its source, and a
    second press puts the page back as the closing left it, but for that
    source. *)
Theorem viewer_toggles (p : Pdf.Page) :
  let p1 := Pdf.exec Pdf.closeSummary p in
  let p2 := Pdf.exec Pdf.togglePDFViewer p1 in
  let p3 := Pdf.exec Pdf.togglePDFViewer p2 in
  Pdf.summaryModal p1 = false
  /\ Pdf.pdfViewerContainer p1 = js "none"
  /\ Pdf.pdfViewerContainer p2 = js "block"
  /\ Pdf.pdfViewerSrc p2 = Pdf.currentPdfUrl p
  /\ Pdf.viewPdfBtnText p2 = see_no_evil ++ js " Hide PDF"
  /\ p3 = Pdf.set_pdfViewerSrc (Pdf.currentPdfUrl p) p1.
Proof.
  destruct p as [s cur inp st di db vd vt sm vc vs dl].
  cbv zeta. repeat split.
Qed.
